(** * golf_game: the movement and collision kernel of [main.cpp]

    A shallow embedding of the tile map loader, the circle/rectangle
    collision test, the wall query, the dot's event handler and its
    per-frame movement step, followed by the properties of the design
    document stated and settled against that embedding.

    Numeric model.
    - [int] is a 32-bit two's complement integer: a [Z] reduced by
      [wrap32] after each arithmetic operation.
    - [float] is IEEE-754 binary32 and [double] is binary64, both carried
      by [spec_float] of the standard library with round-to-nearest-even
      ([prec = 24, emax = 128] and [prec = 53, emax = 1024]).
    - A conversion from [float] to [int] truncates toward zero and has no
      defined result for NaN, infinities and values outside the range of
      [int]; every function that performs one returns an [option]. *)

From Stdlib Require Import ZArith Bool List Lia.
From Stdlib Require Import Floats.SpecFloat.
Import ListNotations.

Local Open Scope Z_scope.

(* ================================================================== *)
(** ** Machine integers *)

Module Int.

Definition min_signed : Z := - 2 ^ 31.
Definition max_signed : Z := 2 ^ 31 - 1.

Definition in_range (z : Z) : bool :=
  (min_signed <=? z) && (z <=? max_signed).

(** Reduction of a mathematical integer to the [int] with the same low
    32 bits. *)
Definition wrap32 (z : Z) : Z := (z + 2 ^ 31) mod 2 ^ 32 - 2 ^ 31.

Definition add (a b : Z) : Z := wrap32 (a + b).
Definition sub (a b : Z) : Z := wrap32 (a - b).
Definition mul (a b : Z) : Z := wrap32 (a * b).

End Int.

(* ================================================================== *)
(** ** Floating point *)

Definition float : Type := spec_float.
Definition double : Type := spec_float.

Module F32.

Definition prec : Z := 24.
Definition emax : Z := 128.

Definition zero : float := S754_zero false.

(** [int] to [float]: rounds when the integer needs more than 24 bits. *)
Definition of_int (z : Z) : float := binary_normalize prec emax z 0 false.

Definition add : float -> float -> float := SFadd prec emax.
Definition mul : float -> float -> float := SFmul prec emax.
Definition div : float -> float -> float := SFdiv prec emax.
Definition opp : float -> float := SFopp.
Definition abs : float -> float := SFabs.
Definition ltb : float -> float -> bool := SFltb.
Definition leb : float -> float -> bool := SFleb.
Definition eqb : float -> float -> bool := SFeqb.

Definition is_nan (x : float) : bool :=
  match x with S754_nan => true | _ => false end.

(** The integer part of a floating-point value, truncated toward zero;
    [None] for NaN and the infinities. *)
Definition trunc (x : float) : option Z :=
  match x with
  | S754_zero _ => Some 0
  | S754_finite s m e => Some (cond_Zopp s (Z.shiftl (Zpos m) e))
  | S754_infinity _ | S754_nan => None
  end.

(** The C++ conversion [int(x)]: defined only when the truncated value
    is representable. *)
Definition to_int (x : float) : option Z :=
  match trunc x with
  | Some z => if Int.in_range z then Some z else None
  | None => None
  end.

End F32.

Module F64.

Definition prec : Z := 53.
Definition emax : Z := 1024.

Definition of_int (z : Z) : double := binary_normalize prec emax z 0 false.

(** [float] to [double] is exact; the mantissa is realigned to 53 bits. *)
Definition of_float (x : float) : double :=
  match x with
  | S754_finite s m e => binary_normalize prec emax (cond_Zopp s (Zpos m)) e s
  | _ => x
  end.

(** [double] to [float] rounds to nearest, ties to even. *)
Definition to_float (x : double) : float :=
  match x with
  | S754_finite s m e =>
      binary_normalize F32.prec F32.emax (cond_Zopp s (Zpos m)) e s
  | _ => x
  end.

Definition mul : double -> double -> double := SFmul prec emax.
Definition div : double -> double -> double := SFdiv prec emax.
Definition ltb : double -> double -> bool := SFltb.

End F64.

(** The [double] literal [0.99] of [Dot::move]. *)
Definition damping : double := S754_finite false 8917127262193582 (-53).

(** The option monad threads the undefined conversions. *)
Definition bind {A B : Type} (c : option A) (k : A -> option B) : option B :=
  match c with
  | Some a => k a
  | None => None
  end.

Notation "x <- c ;; k" := (bind c (fun x => k))
  (at level 61, c at next level, right associativity).

(* ================================================================== *)
(** ** Constants *)

Definition SCREEN_WIDTH : Z := 1280.
Definition SCREEN_HEIGHT : Z := 960.

Definition TILE_WIDTH : Z := 80.
Definition TILE_HEIGHT : Z := 80.
Definition TOTAL_TILES : nat := 192.
Definition TOTAL_TILE_SPRITES : Z := 12.

Definition TILE_RED : Z := 0.
Definition TILE_GREEN : Z := 1.
Definition TILE_BLUE : Z := 2.
Definition TILE_CENTER : Z := 3.
Definition TILE_TOP : Z := 4.
Definition TILE_TOPRIGHT : Z := 5.
Definition TILE_RIGHT : Z := 6.
Definition TILE_BOTTOMRIGHT : Z := 7.
Definition TILE_BOTTOM : Z := 8.
Definition TILE_BOTTOMLEFT : Z := 9.
Definition TILE_LEFT : Z := 10.
Definition TILE_TOPLEFT : Z := 11.

Definition DOT_WIDTH : Z := 20.
Definition DOT_HEIGHT : Z := 20.

(* ================================================================== *)
(** ** Data *)

Record Circle : Type := mkCircle {
  cx : float;
  cy : float;
  cr : float
}.

Record SDL_Rect : Type := mkRect {
  rx : Z;
  ry : Z;
  rw : Z;
  rh : Z
}.

Record Tile : Type := mkTile {
  mBox : SDL_Rect;
  mType : Z
}.

(** [Tile::Tile( int x, int y, int tileType )] *)
Definition Tile_new (x y tileType : Z) : Tile :=
  mkTile (mkRect x y TILE_WIDTH TILE_HEIGHT) tileType.

Definition getType (t : Tile) : Z := mType t.
Definition getBox (t : Tile) : SDL_Rect := mBox t.

(* ================================================================== *)
(** ** Collision test *)

(** [double distanceSquared( int x1, int y1, int x2, int y2 )]: the
    parameters are [int]s, the arithmetic is [int] arithmetic and only
    the result is widened. *)
Definition distanceSquared (x1 y1 x2 y2 : Z) : double :=
  let deltaX := Int.sub x2 x1 in
  let deltaY := Int.sub y2 y1 in
  F64.of_int (Int.add (Int.mul deltaX deltaX) (Int.mul deltaY deltaY)).

(** The closest coordinate of the box on one axis, as [checkCollision]
    selects it: [lo] is [b.x], [hi] is [b.x + b.w] (an [int] sum). *)
Definition closest (a : float) (lo hi : Z) : float :=
  if F32.ltb a (F32.of_int lo) then F32.of_int lo
  else if F32.ltb (F32.of_int hi) a then F32.of_int hi
  else a.

(** [bool checkCollision( Circle& a, SDL_Rect b )]. The four [float]
    arguments of the call to [distanceSquared] are converted to its
    [int] parameters. *)
Definition checkCollision (a : Circle) (b : SDL_Rect) : option bool :=
  let cX := closest (cx a) (rx b) (Int.add (rx b) (rw b)) in
  let cY := closest (cy a) (ry b) (Int.add (ry b) (rh b)) in
  x1 <- F32.to_int (cx a) ;;
  y1 <- F32.to_int (cy a) ;;
  x2 <- F32.to_int cX ;;
  y2 <- F32.to_int cY ;;
  Some (F64.ltb (distanceSquared x1 y1 x2 y2)
                (F64.of_float (F32.mul (cr a) (cr a)))).

Definition isWall (t : Tile) : bool :=
  (TILE_CENTER <=? getType t) && (getType t <=? TILE_TOPLEFT).

(** The loop of [touchesWall], from index [i] for [n] more tiles. An
    index with no tile behind it has no defined behaviour. *)
Fixpoint touchesWall_from (circle : Circle) (tiles : list Tile)
    (i n : nat) : option bool :=
  match n with
  | O => Some false
  | S n' =>
      t <- nth_error tiles i ;;
      if isWall t then
        hit <- checkCollision circle (getBox t) ;;
        if hit then Some true else touchesWall_from circle tiles (S i) n'
      else touchesWall_from circle tiles (S i) n'
  end.

(** [bool touchesWall( Circle& circle, Tile* tiles[] )] *)
Definition touchesWall (circle : Circle) (tiles : list Tile) : option bool :=
  touchesWall_from circle tiles 0 TOTAL_TILES.

(* ================================================================== *)
(** ** The dot *)

Record Dot : Type := mkDot {
  mPosX : float;
  mPosY : float;
  mVelX : float;
  mVelY : float;
  mouseX_down : Z;
  mouseY_down : Z;
  mouseX_up : Z;
  mouseY_up : Z;
  mCollider : Circle
}.

Definition set_collider (c : Circle) (d : Dot) : Dot :=
  mkDot (mPosX d) (mPosY d) (mVelX d) (mVelY d)
        (mouseX_down d) (mouseY_down d) (mouseX_up d) (mouseY_up d) c.

Definition set_x (p v : float) (d : Dot) : Dot :=
  mkDot p (mPosY d) v (mVelY d)
        (mouseX_down d) (mouseY_down d) (mouseX_up d) (mouseY_up d)
        (mCollider d).

Definition set_y (p v : float) (d : Dot) : Dot :=
  mkDot (mPosX d) p (mVelX d) v
        (mouseX_down d) (mouseY_down d) (mouseX_up d) (mouseY_up d)
        (mCollider d).

Definition set_vel (vx vy : float) (d : Dot) : Dot :=
  mkDot (mPosX d) (mPosY d) vx vy
        (mouseX_down d) (mouseY_down d) (mouseX_up d) (mouseY_up d)
        (mCollider d).

(** [void Dot::shiftColliders()]: [mCollider.x = int(mPosX)], and the
    same for [y]; the radius is not assigned. *)
Definition shiftColliders (d : Dot) : option Dot :=
  ix <- F32.to_int (mPosX d) ;;
  iy <- F32.to_int (mPosY d) ;;
  Some (set_collider
          (mkCircle (F32.of_int ix) (F32.of_int iy) (cr (mCollider d))) d).

(** The four mouse members are not assigned by the constructor: they
    hold whatever the storage of the object held. *)
Record Indeterminate : Type := mkIndet {
  junk_x_down : Z;
  junk_y_down : Z;
  junk_x_up : Z;
  junk_y_up : Z
}.

(** [Dot::Dot( int x, int y )] *)
Definition Dot_new (junk : Indeterminate) (x y : Z) : option Dot :=
  shiftColliders
    (mkDot (F32.of_int x) (F32.of_int y) (F32.of_int 0) (F32.of_int 0)
           (junk_x_down junk) (junk_y_down junk)
           (junk_x_up junk) (junk_y_up junk)
           (mkCircle (F32.of_int x) (F32.of_int y)
                     (F32.of_int (Z.quot DOT_WIDTH 2)))).

(** The events [Dot::handleEvent] distinguishes, with [e.button.x] and
    [e.button.y] for the two mouse button events. *)
Inductive SDL_Event : Type :=
  | SDL_MOUSEBUTTONDOWN (x y : Z)
  | SDL_MOUSEBUTTONUP (x y : Z)
  | SDL_OTHER.

(** The guard [mVelX == 0 && mVelY == 0]. *)
Definition atRest (d : Dot) : bool :=
  F32.eqb (mVelX d) (F32.of_int 0) && F32.eqb (mVelY d) (F32.of_int 0).

(** [void Dot::handleEvent( SDL_Event& e )] *)
Definition handleEvent (e : SDL_Event) (d : Dot) : Dot :=
  if atRest d then
    match e with
    | SDL_MOUSEBUTTONDOWN x y =>
        mkDot (mPosX d) (mPosY d) (mVelX d) (mVelY d)
              x y (mouseX_up d) (mouseY_up d) (mCollider d)
    | SDL_MOUSEBUTTONUP x y =>
        let changeX := F32.of_int (Int.sub (mouseX_down d) x) in
        let changeY := F32.of_int (Int.sub (mouseY_down d) y) in
        mkDot (mPosX d) (mPosY d)
              (F32.add (mVelX d) (F32.mul changeX (F32.of_int 2)))
              (F32.add (mVelY d) (F32.mul changeY (F32.of_int 2)))
              (mouseX_down d) (mouseY_down d) x y (mCollider d)
    | SDL_OTHER => d
    end
  else d.

(** [mVel = mVel * 0.99]: the product is taken in [double] and stored
    back into a [float]. *)
Definition damp (v : float) : float :=
  F64.to_float (F64.mul (F64.of_float v) damping).

(** [mPosX += (mVelX * timeStep); mVelX = mVelX * 0.99;] *)
Definition integrateX (timeStep : float) (d : Dot) : Dot :=
  set_x (F32.add (mPosX d) (F32.mul (mVelX d) timeStep)) (damp (mVelX d)) d.

Definition integrateY (timeStep : float) (d : Dot) : Dot :=
  set_y (F32.add (mPosY d) (F32.mul (mVelY d) timeStep)) (damp (mVelY d)) d.

(** The bounds the position is tested against and clamped to:
    [DOT_WIDTH / 2], [SCREEN_WIDTH - (DOT_WIDTH / 2)] and
    [SCREEN_HEIGHT - (DOT_WIDTH / 2)], [int] expressions converted to
    [float] at the comparison and at the assignment. *)
Definition lowBound : float := F32.of_int (Z.quot DOT_WIDTH 2).
Definition highBoundX : float :=
  F32.of_int (Int.sub SCREEN_WIDTH (Z.quot DOT_WIDTH 2)).
Definition highBoundY : float :=
  F32.of_int (Int.sub SCREEN_HEIGHT (Z.quot DOT_WIDTH 2)).

(** The [if / else if / else if] chain of the horizontal axis; [fooX] is
    the position saved on entry to [move]. *)
Definition resolveX (tiles : list Tile) (fooX : float) (d : Dot)
    : option Dot :=
  if F32.ltb (mPosX d) lowBound then
    Some (set_x lowBound (F32.opp (mVelX d)) d)
  else if F32.ltb highBoundX (mPosX d) then
    Some (set_x highBoundX (F32.opp (mVelX d)) d)
  else
    hit <- touchesWall (mCollider d) tiles ;;
    if hit then Some (set_x fooX (F32.opp (mVelX d)) d) else Some d.

(** The vertical chain; the source tests against [DOT_WIDTH] here too. *)
Definition resolveY (tiles : list Tile) (fooY : float) (d : Dot)
    : option Dot :=
  if F32.ltb (mPosY d) lowBound then
    Some (set_y lowBound (F32.opp (mVelY d)) d)
  else if F32.ltb highBoundY (mPosY d) then
    Some (set_y highBoundY (F32.opp (mVelY d)) d)
  else
    hit <- touchesWall (mCollider d) tiles ;;
    if hit then Some (set_y fooY (F32.opp (mVelY d)) d) else Some d.

(** The closing test of [move]:
    [mVelX < 20 && mVelX > -20 && mVelY < 20 && mVelY > -20]. *)
Definition slow (d : Dot) : bool :=
  F32.ltb (mVelX d) (F32.of_int 20) && F32.ltb (F32.of_int (-20)) (mVelX d)
  && F32.ltb (mVelY d) (F32.of_int 20) && F32.ltb (F32.of_int (-20)) (mVelY d).

Definition settle (d : Dot) : Dot :=
  if slow d then set_vel (F32.of_int 0) (F32.of_int 0) d else d.

(** The horizontal half of [move]: integrate, align the collider,
    resolve, align the collider. *)
Definition moveX (tiles : list Tile) (timeStep fooX : float) (d : Dot)
    : option Dot :=
  d1 <- shiftColliders (integrateX timeStep d) ;;
  d2 <- resolveX tiles fooX d1 ;;
  shiftColliders d2.

Definition moveY (tiles : list Tile) (timeStep fooY : float) (d : Dot)
    : option Dot :=
  d1 <- shiftColliders (integrateY timeStep d) ;;
  d2 <- resolveY tiles fooY d1 ;;
  shiftColliders d2.

(** Both axes, before the closing test. *)
Definition moveXY (tiles : list Tile) (timeStep : float) (d : Dot)
    : option Dot :=
  let fooX := mPosX d in
  let fooY := mPosY d in
  dx <- moveX tiles timeStep fooX d ;;
  moveY tiles timeStep fooY dx.

(** [void Dot::move( Tile *tiles[] , float timeStep )]. The two lines
    written to [std::cout] are not part of the state. *)
Definition move (tiles : list Tile) (timeStep : float) (d : Dot)
    : option Dot :=
  d' <- moveXY tiles timeStep d ;;
  Some (settle d').

(* ================================================================== *)
(** ** Loading the tile map *)

(** The map file: it cannot be opened, or it holds a sequence of
    whitespace-separated integers. *)
Inductive MapFile : Type :=
  | Unreadable
  | Contents (codes : list Z).

(** [map >> tileType]: the next integer of the stream, with the stream
    failing at its end and on a number that does not fit an [int]. *)
Definition extract (stream : list Z) : option (Z * list Z) :=
  match stream with
  | [] => None
  | tok :: rest => if Int.in_range tok then Some (tok, rest) else None
  end.

(** The [for] loop of [setTiles] with [n] tiles left to make and the
    offsets [x], [y]; returns [tilesLoaded] and the tiles made. *)
Fixpoint setTiles_loop (n : nat) (x y : Z) (stream : list Z)
    : bool * list Tile :=
  match n with
  | O => (true, [])
  | S n' =>
      match extract stream with
      | None => (false, [])
      | Some (tileType, rest) =>
          if (0 <=? tileType) && (tileType <? TOTAL_TILE_SPRITES) then
            let x1 := Int.add x TILE_WIDTH in
            let '(ok, ts) :=
              if SCREEN_WIDTH <=? x1
              then setTiles_loop n' 0 (Int.add y TILE_HEIGHT) rest
              else setTiles_loop n' x1 y rest in
            (ok, Tile_new x y tileType :: ts)
          else (false, [])
      end
  end.

(** [bool setTiles( Tile* tiles[] )]. The sprite clips set on success
    only concern rendering. *)
Definition setTiles (map : MapFile) : bool * list Tile :=
  match map with
  | Unreadable => (false, [])
  | Contents codes => setTiles_loop TOTAL_TILES 0 0 codes
  end.

(* ================================================================== *)
(** ** The timer *)

(** [Uint32] arithmetic: the tick counter and the timer's members. *)
Module U32.

Definition modulus : Z := 2 ^ 32.
Definition wrap (z : Z) : Z := z mod modulus.
Definition sub (a b : Z) : Z := wrap (a - b).

End U32.

(** [class LTimer]. Every function that calls [SDL_GetTicks()] takes the
    value it returns as [now]. *)
Module Timer.

Record LTimer : Type := mkTimer {
  mStartTicks : Z;
  mPausedTicks : Z;
  mPaused : bool;
  mStarted : bool
}.

(** [LTimer::LTimer()] *)
Definition new : LTimer := mkTimer 0 0 false false.

(** [void LTimer::start()] *)
Definition start (now : Z) (t : LTimer) : LTimer := mkTimer now 0 false true.

(** [void LTimer::stop()] *)
Definition stop (t : LTimer) : LTimer := mkTimer 0 0 false false.

(** [void LTimer::pause()] *)
Definition pause (now : Z) (t : LTimer) : LTimer :=
  if mStarted t && negb (mPaused t)
  then mkTimer 0 (U32.sub now (mStartTicks t)) true (mStarted t)
  else t.

(** [void LTimer::unpause()] *)
Definition unpause (now : Z) (t : LTimer) : LTimer :=
  if mStarted t && mPaused t
  then mkTimer (U32.sub now (mPausedTicks t)) 0 false (mStarted t)
  else t.

(** [Uint32 LTimer::getTicks()] *)
Definition getTicks (now : Z) (t : LTimer) : Z :=
  if mStarted t then
    if mPaused t then mPausedTicks t else U32.sub now (mStartTicks t)
  else 0.

(** [bool LTimer::isStarted()] and [bool LTimer::isPaused()] *)
Definition isStarted (t : LTimer) : bool := mStarted t.
Definition isPaused (t : LTimer) : bool := mPaused t && mStarted t.

End Timer.

(* ================================================================== *)
(** ** The vector class *)

Module Vec.

Record Vector2D : Type := mk {
  x : float;
  y : float
}.

(** [Vector2D operator+(const Vector2D& other) const] *)
Definition add (a b : Vector2D) : Vector2D :=
  mk (F32.add (x a) (x b)) (F32.add (y a) (y b)).

(** [Vector2D operator-(const Vector2D& other) const] *)
Definition sub (a b : Vector2D) : Vector2D :=
  mk (SFsub F32.prec F32.emax (x a) (x b))
     (SFsub F32.prec F32.emax (y a) (y b)).

(** [Vector2D operator*(float scalar) const] *)
Definition scale (a : Vector2D) (scalar : float) : Vector2D :=
  mk (F32.mul (x a) scalar) (F32.mul (y a) scalar).

(** [void normalize()]: [std::sqrt] on a [float] is the [float]
    square root. *)
Definition normalize (a : Vector2D) : Vector2D :=
  let magnitude :=
    SFsqrt F32.prec F32.emax
           (F32.add (F32.mul (x a) (x a)) (F32.mul (y a) (y a))) in
  if F32.ltb (F32.of_int 0) magnitude
  then mk (F32.div (x a) magnitude) (F32.div (y a) magnitude)
  else a.

End Vec.

(* ================================================================== *)
(** ** The tile array, [loadMedia], [close] and the main loop *)

(** An element of [Tile* tileSet[ TOTAL_TILES ]]: not yet assigned, the
    null pointer, or a tile made by [new]. *)
Inductive Slot : Type :=
  | Uninit
  | Null
  | Live (t : Tile).

(** The array of [main] after [setTiles] has made the tiles [built]:
    the slots it did not reach were never assigned. *)
Definition tileSet_after (built : list Tile) : list Slot :=
  map Live built ++ repeat Uninit (TOTAL_TILES - length built).

(** [bool loadMedia( Tile* tiles[] )]: the results of the two calls to
    [loadFromFile] are given; the map is loaded whatever they are. *)
Definition loadMedia (dotTexture tileTexture : bool) (map : MapFile)
    : bool * list Slot :=
  let success := true in
  let success := if negb dotTexture then false else success in
  let success := if negb tileTexture then false else success in
  let success := if negb (fst (setTiles map)) then false else success in
  (success, tileSet_after (snd (setTiles map))).

Fixpoint set_slot (i : nat) (v : Slot) (slots : list Slot) : list Slot :=
  match slots, i with
  | [], _ => []
  | _ :: rest, O => v :: rest
  | s :: rest, S i' => s :: set_slot i' v rest
  end.

(** The loop of [close] from index [i] for [n] more slots: a slot that
    is not null is deleted and set to null. Reading a slot that was never
    assigned has no defined behaviour. Returns the array and the tiles
    deleted, in order. *)
Fixpoint close_from (tiles : list Slot) (i n : nat)
    : option (list Slot * list Tile) :=
  match n with
  | O => Some (tiles, [])
  | S n' =>
      s <- nth_error tiles i ;;
      match s with
      | Uninit => None
      | Null => close_from tiles (S i) n'
      | Live t =>
          r <- close_from (set_slot i Null tiles) (S i) n' ;;
          Some (fst r, t :: snd r)
      end
  end.

(** [void close( Tile* tiles[] )], the part that concerns the tiles. *)
Definition close (tiles : list Slot) : option (list Slot * list Tile) :=
  close_from tiles 0 TOTAL_TILES.

(** The state of the main loop: the dot and [stepTimer]. *)
Record Game : Type := mkGame {
  dot : Dot;
  stepTimer : Timer.LTimer
}.

(** [float timeStep = stepTimer.getTicks() / 1000.f] *)
Definition timeStep_of (ticks : Z) : float :=
  F32.div (F32.of_int ticks) (F32.of_int 1000).

(** One pass of the [while( !quit )] loop of [main]: the queued events
    go to the dot, the dot moves by the time since the timer was
    started, and the timer is restarted. [now1] and [now2] are the two
    readings of [SDL_GetTicks()]. Rendering is left out. *)
Definition frame (tiles : list Tile) (events : list SDL_Event)
    (now1 now2 : Z) (g : Game) : option Game :=
  let d := fold_left (fun d e => handleEvent e d) events (dot g) in
  let timeStep := timeStep_of (Timer.getTicks now1 (stepTimer g)) in
  d' <- move tiles timeStep d ;;
  Some (mkGame d' (Timer.start now2 (stepTimer g))).

(* ================================================================== *)
(** ** Vocabulary of the properties *)

(** A [float] literal given as a fraction of two small integers, rounded
    to nearest as the compiler rounds a decimal literal. *)
Definition ratio (n d : Z) : float := F32.div (F32.of_int n) (F32.of_int d).


(** The same test on a centre with integer coordinates, in integer
    arithmetic: the clamped coordinate and the squared distance. *)
Definition clampZ (i lo hi : Z) : Z :=
  if i <? lo then lo else if hi <? i then hi else i.

Definition distance2Z (i j : Z) (b : SDL_Rect) : Z :=
  let dx := i - clampZ i (rx b) (rx b + rw b) in
  let dy := j - clampZ j (ry b) (ry b + rh b) in
  dx * dx + dy * dy.

(** Coordinates for which no [int] operation of the collision test
    wraps; the playfield is 1280 by 960. *)
Definition coordinate (z : Z) : Prop := Z.abs z <= 10000.

(** The mantissa and exponent of the [float] of precision [prec] that
    holds a positive integer [m] of at most [prec] bits, and the integers
    that fit. *)
Definition norm_e (prec : Z) (m : positive) : Z :=
  Zpos (digits2_pos m) - prec.

Definition norm_m (prec : Z) (m : positive) : positive :=
  fst (shl_align m 0 (norm_e prec m)).

Definition fits (prec z : Z) : Prop :=
  match z with
  | Z0 => True
  | Zpos m | Zneg m => Zpos (digits2_pos m) <= prec
  end.

(** The tests of the resolution chain on a state whose collider has been
    aligned after integration. *)
Definition belowLow (p : float) : bool := F32.ltb p lowBound.
Definition aboveHigh (hi p : float) : bool := F32.ltb hi p.

(** Neither bound is crossed and the collider touches a wall tile. *)
Definition wallHitX (tiles : list Tile) (d : Dot) : Prop :=
  belowLow (mPosX d) = false /\ aboveHigh highBoundX (mPosX d) = false /\
  touchesWall (mCollider d) tiles = Some true.

Definition wallHitY (tiles : list Tile) (d : Dot) : Prop :=
  belowLow (mPosY d) = false /\ aboveHigh highBoundY (mPosY d) = false /\
  touchesWall (mCollider d) tiles = Some true.

(** Neither bound is crossed and no wall tile is touched. *)
Definition clearX (tiles : list Tile) (d : Dot) : Prop :=
  belowLow (mPosX d) = false /\ aboveHigh highBoundX (mPosX d) = false /\
  touchesWall (mCollider d) tiles = Some false.

Definition clearY (tiles : list Tile) (d : Dot) : Prop :=
  belowLow (mPosY d) = false /\ aboveHigh highBoundY (mPosY d) = false /\
  touchesWall (mCollider d) tiles = Some false.

(** The position lies in [[radius, dimension - radius]] on both axes. *)
Definition in_playfield (d : Dot) : bool :=
  F32.leb lowBound (mPosX d) && F32.leb (mPosX d) highBoundX
  && F32.leb lowBound (mPosY d) && F32.leb (mPosY d) highBoundY.

(** The collider sits on the position, converted to [int] and back. *)
Definition collider_aligned (d : Dot) : Prop :=
  exists ix iy,
    F32.to_int (mPosX d) = Some ix /\ F32.to_int (mPosY d) = Some iy /\
    cx (mCollider d) = F32.of_int ix /\ cy (mCollider d) = F32.of_int iy.

(** The collider centre is the position itself. *)
Definition collider_on_position (d : Dot) : Prop :=
  cx (mCollider d) = mPosX d /\ cy (mCollider d) = mPosY d.

(** The integer a [float] holds, when it holds one exactly. *)
Definition exact_int (x : float) : option Z :=
  match x with
  | S754_zero _ => Some 0
  | S754_finite s m e =>
      if 0 <=? e then Some (cond_Zopp s (Zpos m * 2 ^ e))
      else if Zpos m mod 2 ^ (- e) =? 0
           then Some (cond_Zopp s (Zpos m / 2 ^ (- e)))
           else None
  | S754_infinity _ | S754_nan => None
  end.

(** The impulse of a release at [(x, y)] against the stored press:
    [changeX * 2] and [changeY * 2]. *)
Definition impulse (d : Dot) (x y : Z) : float * float :=
  (F32.mul (F32.of_int (Int.sub (mouseX_down d) x)) (F32.of_int 2),
   F32.mul (F32.of_int (Int.sub (mouseY_down d) y)) (F32.of_int 2)).

(** Differences between the press and the release for which the
    impulse is exact: those a [float] holds without rounding. *)
Definition drag_span : Z := 16777215.

(** The stored press and release coordinates. *)
Definition press_of (d : Dot) : Z * Z := (mouseX_down d, mouseY_down d).
Definition release_of (d : Dot) : Z * Z := (mouseX_up d, mouseY_up d).
Definition velocity_of (d : Dot) : float * float := (mVelX d, mVelY d).

(** What the main loop feeds the dot: an event, or a frame of [move]. *)
Inductive Input : Type :=
  | Event (e : SDL_Event)
  | Frame (timeStep : float).

Definition feed (tiles : list Tile) (i : Input) (d : Dot) : option Dot :=
  match i with
  | Event e => Some (handleEvent e d)
  | Frame timeStep => move tiles timeStep d
  end.

Fixpoint run (tiles : list Tile) (inputs : list Input) (d : Dot)
    : option Dot :=
  match inputs with
  | [] => Some d
  | i :: rest => d' <- feed tiles i d ;; run tiles rest d'
  end.

(** The press a release at rest will use after [inputs]: the last press
    handled while the dot was at rest, and [p] when there is none. *)
Fixpoint last_press_at_rest (tiles : list Tile) (inputs : list Input)
    (d : Dot) (p : Z * Z) : Z * Z :=
  match inputs with
  | [] => p
  | i :: rest =>
      let p' :=
        match i with
        | Event (SDL_MOUSEBUTTONDOWN x y) => if atRest d then (x, y) else p
        | _ => p
        end in
      match feed tiles i d with
      | Some d' => last_press_at_rest tiles rest d' p'
      | None => p'
      end
  end.

(** The pixel position of the tile with row-major index [i] in the
    grid of 16 columns. *)
Definition grid_position (i : Z) : Z * Z :=
  (TILE_WIDTH * (i mod 16), TILE_HEIGHT * (i / 16)).

(** One tile per code, from index [i] on. *)
Fixpoint tiles_from (i : Z) (codes : list Z) : list Tile :=
  match codes with
  | [] => []
  | c :: rest =>
      Tile_new (fst (grid_position i)) (snd (grid_position i)) c
      :: tiles_from (i + 1) rest
  end.

(** A code in [[0, TOTAL_TILE_SPRITES)]. *)
Definition valid_code (c : Z) : bool := (0 <=? c) && (c <? TOTAL_TILE_SPRITES).

(** The sequence is well-formed as far as the loader reads it: it has
    192 codes at least and the first 192 are valid. *)
Definition well_formed_prefix (codes : list Z) : bool :=
  (TOTAL_TILES <=? length codes)%nat
  && forallb valid_code (firstn TOTAL_TILES codes).

(** The sequence is malformed in the sense of the design document:
    short, long, or with a code out of range anywhere. *)
Definition malformed (codes : list Z) : bool :=
  negb ((length codes =? TOTAL_TILES)%nat && forallb valid_code codes).

(** Calls on a timer, and a sequence of them from a fresh timer. *)
Inductive TimerCall : Type :=
  | CallStart (now : Z)
  | CallStop
  | CallPause (now : Z)
  | CallUnpause (now : Z).

Definition call (c : TimerCall) (t : Timer.LTimer) : Timer.LTimer :=
  match c with
  | CallStart now => Timer.start now t
  | CallStop => Timer.stop t
  | CallPause now => Timer.pause now t
  | CallUnpause now => Timer.unpause now t
  end.

Definition calls (cs : list TimerCall) (t : Timer.LTimer) : Timer.LTimer :=
  fold_left (fun t c => call c t) cs t.

(** A value of [Uint32]. *)
Definition is_u32 (z : Z) : Prop := 0 <= z < U32.modulus.

(** The clock readings of a call are [Uint32] values. *)
Definition call_ok (c : TimerCall) : Prop :=
  match c with
  | CallStart now | CallPause now | CallUnpause now => is_u32 now
  | CallStop => True
  end.

(** The reading of [SDL_GetTicks()] at the real time [T] milliseconds
    after initialisation: the counter wraps at 2^32. *)
Definition ticks_at (T : Z) : Z := U32.wrap T.

(** The corners of a box are coordinates of the playfield's range. *)
Definition box_in_range (b : SDL_Rect) : Prop :=
  coordinate (rx b) /\ coordinate (ry b) /\
  coordinate (rx b + rw b) /\ coordinate (ry b + rh b).

(** A wall tile that the circle of centre [(i, j)] and squared radius
    [q] overlaps. *)
Definition hits (i j q : Z) (t : Tile) : bool :=
  isWall t && (distance2Z i j (getBox t) <? q).

(** The codes the loader accepts before it stops: the valid codes at
    the front of the first 192. *)
Fixpoint accepted (n : nat) (codes : list Z) : list Z :=
  match n, codes with
  | S n', c :: rest => if valid_code c then c :: accepted n' rest else []
  | _, _ => []
  end.

(** A box that lies inside the playfield. *)
Definition box_on_screen (b : SDL_Rect) : Prop :=
  0 <= rx b /\ rx b + rw b <= SCREEN_WIDTH /\
  0 <= ry b /\ ry b + rh b <= SCREEN_HEIGHT.

(** The game when the main loop is entered: the dot of [main] and a
    timer that has not been started. *)
Definition game_of (d : Dot) : Game := mkGame d Timer.new.

(** The square of the radius [r], as the test computes it, is the
    integer [q]. *)
Definition squared_radius (r : float) (q : Z) : Prop :=
  F64.of_float (F32.mul r r) = F64.of_int q /\ Z.abs q < 2 ^ 53.

(** A box moved by [(t, u)]. *)
Definition shift_box (t u : Z) (b : SDL_Rect) : SDL_Rect :=
  mkRect (rx b + t) (ry b + u) (rw b) (rh b).

(** The components are numbers: zero or finite. *)
Definition finite_vector (a : Vec.Vector2D) : Prop :=
  ((exists s, Vec.x a = S754_zero s) \/
   (exists s m e, Vec.x a = S754_finite s m e)) /\
  ((exists s, Vec.y a = S754_zero s) \/
   (exists s m e, Vec.y a = S754_finite s m e)).

(** *** Sample data *)

(** A map of 192 decorative tiles, and one whose first tile is a wall. *)
Definition open_map : list Tile :=
  snd (setTiles (Contents (repeat TILE_RED 192))).

Definition corner_wall_map : list Tile :=
  snd (setTiles (Contents (TILE_CENTER :: repeat TILE_RED 191))).

Definition sample_junk : Indeterminate := mkIndet 7 8 9 10.

(** The box of the tile at the origin. *)
Definition origin_box : SDL_Rect := getBox (Tile_new 0 0 TILE_CENTER).


(** A dot with the given position and velocity and an aligned collider. *)
Definition dot_at (px py vx vy : float) (ix iy : Z) : Dot :=
  mkDot px py vx vy 0 0 0 0
        (mkCircle (F32.of_int ix) (F32.of_int iy) (F32.of_int 10)).

(** The state held by an option, with a fallback. *)
Definition state_or (d : Dot) (o : option Dot) : Dot :=
  match o with Some d' => d' | None => d end.

(** A slow dot in the open: position (100, 100), velocity (15, -15). *)
Definition slow_dot : Dot :=
  dot_at (F32.of_int 100) (F32.of_int 100)
         (F32.of_int 15) (F32.of_int (-15)) 100 100.

(** A dot beside the wall tile of [corner_wall_map], heading left into
    it: position (90, 40), velocity (-200, 0). *)
Definition dot_by_wall : Dot :=
  dot_at (F32.of_int 90) (F32.of_int 40)
         (F32.of_int (-200)) (F32.of_int 0) 90 40.

(** A dot under that wall tile, heading up into it: position (40, 90),
    velocity (0, -200). *)
Definition dot_under_wall : Dot :=
  dot_at (F32.of_int 40) (F32.of_int 90)
         (F32.of_int 0) (F32.of_int (-200)) 40 90.


(** The dot of [main]: [Dot dot( Dot::DOT_WIDTH / 2, Dot::DOT_HEIGHT / 2 )],
    on storage that held [sample_junk]. *)
Definition main_dot : option Dot :=
  Dot_new sample_junk (Z.quot DOT_WIDTH 2) (Z.quot DOT_HEIGHT 2).

(** A first drag from (105, 100) to (100, 100) sets the dot moving. *)
Definition first_drag : list Input :=
  [Event (SDL_MOUSEBUTTONDOWN 105 100); Event (SDL_MOUSEBUTTONUP 100 100)].

Definition moving_dot : Dot :=
  state_or slow_dot (d <- main_dot ;; run open_map first_drag d).

(** A press at (105, 100) while the dot moves, then a frame of a quarter
    of a second, after which the dot has settled. *)
Definition settled_dot : Dot :=
  state_or slow_dot
    (run open_map [Event (SDL_MOUSEBUTTONDOWN 105 100); Frame (ratio 1 4)]
         moving_dot).

(** A press at (300, 300) that arrives while the dot moves, and the
    frame after which the dot has settled. *)
Definition late_press : list Input :=
  [Event (SDL_MOUSEBUTTONDOWN 300 300); Frame (ratio 1 4)].


(** A map file of 193 codes, the last one out of range. *)
Definition long_codes : list Z := repeat TILE_RED 192 ++ [99].

(** Constants stay folded under [simpl]. *)
Arguments F32.of_int : simpl never.
Arguments ratio : simpl never.
Arguments damp : simpl never.
Arguments lowBound : simpl never.
Arguments highBoundX : simpl never.
Arguments highBoundY : simpl never.
Arguments F32.add : simpl never.
Arguments F32.mul : simpl never.
Arguments F32.ltb : simpl never.
Arguments F32.leb : simpl never.
Arguments F32.eqb : simpl never.
Arguments F32.to_int : simpl never.
Arguments touchesWall : simpl never.

(* ================================================================== *)
(** ** Basic facts *)

Lemma bind_Some {A B : Type} (c : option A) (k : A -> option B) (b : B) :
  bind c k = Some b -> exists a, c = Some a /\ k a = Some b.
Proof.
  destruct c as [a|]; simpl; intros H; [exists a; auto | discriminate].
Qed.

(** *** Integers that a float holds exactly *)

Section Exact.
Variables prec emax : Z.
Hypothesis Hprec : 0 < prec.
Hypothesis Hemax : prec < emax.

Lemma digits2_size (p : positive) : digits2_pos p = Pos.size p.
Proof. induction p; simpl; congruence. Qed.

Lemma digits2_shift (m k : positive) :
  digits2_pos (Pos.iter xO m k) = (digits2_pos m + k)%positive.
Proof.
  induction k using Pos.peano_ind.
  - simpl. lia.
  - rewrite Pos.iter_succ. simpl. rewrite IHk. lia.
Qed.

Lemma shift_value (m k : positive) :
  Zpos (Pos.iter xO m k) = Zpos m * 2 ^ Zpos k.
Proof.
  induction k using Pos.peano_ind.
  - simpl. lia.
  - rewrite Pos.iter_succ, Pos2Z.inj_succ, Z.pow_succ_r by lia.
    rewrite Pos2Z.inj_xO, IHk. lia.
Qed.


Lemma fexp_small (d : Z) : 0 < d -> fexp prec emax d = d - prec.
Proof. intros H. unfold fexp, emin. lia. Qed.

Lemma shl_align_norm (m : positive) :
  Zpos (digits2_pos m) <= prec ->
  shl_align m 0 (norm_e prec m) = (norm_m prec m, norm_e prec m) /\
  Zpos (digits2_pos (norm_m prec m)) = prec /\
  Zpos (norm_m prec m) = Zpos m * 2 ^ (- norm_e prec m).
Proof.
  intros H. unfold norm_m, norm_e, shl_align.
  rewrite Z.sub_0_r.
  destruct (Zpos (digits2_pos m) - prec) as [|p|p] eqn:E; try lia.
  - simpl. split; [reflexivity|]. split; lia.
  - cbn [fst]. split; [reflexivity|]. split.
    + rewrite digits2_shift. lia.
    + rewrite shift_value. reflexivity.
Qed.

Lemma binary_round_exact (s : bool) (m : positive) :
  Zpos (digits2_pos m) <= prec ->
  binary_round prec emax s m 0 = S754_finite s (norm_m prec m) (norm_e prec m).
Proof.
  intros H. destruct (shl_align_norm m H) as [A [D V]].
  unfold binary_round. rewrite Z.add_0_r, fexp_small by lia.
  fold (norm_e prec m). rewrite A.
  unfold binary_round_aux, shr_fexp.
  cbn [Zdigits2 shr_record_of_loc]. rewrite D.
  assert (F : fexp prec emax (prec + norm_e prec m) - norm_e prec m = 0).
  { unfold norm_e. rewrite fexp_small by lia. lia. }
  rewrite F. cbn [shr shr_m loc_of_shr_record round_nearest_even Zdigits2 shr_record_of_loc].
  rewrite D, F. cbn [shr shr_m].
  assert (L : (norm_e prec m <=? emax - prec) = true) by (unfold norm_e; lia).
  rewrite L. reflexivity.
Qed.


Lemma digits2_bounds (p : positive) :
  2 ^ (Zpos (digits2_pos p) - 1) <= Zpos p < 2 ^ Zpos (digits2_pos p).
Proof.
  rewrite digits2_size. split.
  - pose proof (Pos.size_le p) as L.
    assert (E : Zpos (2 ^ Pos.size p) = 2 ^ Zpos (Pos.size p))
      by (rewrite Pos2Z.inj_pow; reflexivity).
    assert (P : 2 ^ Zpos (Pos.size p) = 2 * 2 ^ (Zpos (Pos.size p) - 1)).
    { rewrite <- Z.pow_succ_r by lia. f_equal. lia. }
    lia.
  - pose proof (Pos.size_gt p) as G.
    assert (E : Zpos (2 ^ Pos.size p) = 2 ^ Zpos (Pos.size p))
      by (rewrite Pos2Z.inj_pow; reflexivity).
    lia.
Qed.

Lemma digits2_mono (a b : positive) :
  Zpos (digits2_pos a) < Zpos (digits2_pos b) -> Zpos a < Zpos b.
Proof.
  intros H. pose proof (digits2_bounds a) as [_ A].
  pose proof (digits2_bounds b) as [B _].
  assert (M : 2 ^ Zpos (digits2_pos a) <= 2 ^ (Zpos (digits2_pos b) - 1))
    by (apply Z.pow_le_mono_r; lia).
  lia.
Qed.

Lemma compare_norm (a b : positive) :
  Zpos (digits2_pos a) <= prec -> Zpos (digits2_pos b) <= prec ->
  match norm_e prec a ?= norm_e prec b with
  | Lt => Lt
  | Gt => Gt
  | Eq => Pos.compare_cont Eq (norm_m prec a) (norm_m prec b)
  end = (Zpos a ?= Zpos b).
Proof.
  intros Ha Hb.
  destruct (shl_align_norm a Ha) as [_ [_ Va]].
  destruct (shl_align_norm b Hb) as [_ [_ Vb]].
  destruct (Z.compare_spec (norm_e prec a) (norm_e prec b)) as [E|L|G].
  - change (Pos.compare_cont Eq (norm_m prec a) (norm_m prec b))
      with (Zpos (norm_m prec a) ?= Zpos (norm_m prec b)).
    rewrite Va, Vb, E.
    assert (P : 0 < 2 ^ (- norm_e prec b))
      by (apply Z.pow_pos_nonneg; unfold norm_e; lia).
    destruct (Z.compare_spec (Zpos a) (Zpos b)) as [E'|L'|G'].
    + rewrite E'. apply Z.compare_refl.
    + apply Z.compare_lt_iff. nia.
    + apply Z.compare_gt_iff. nia.
  - symmetry. apply Z.compare_lt_iff. apply digits2_mono.
    unfold norm_e in L. lia.
  - symmetry. apply Z.compare_gt_iff. apply digits2_mono.
    unfold norm_e in G. lia.
Qed.

Lemma fits_bound (z : Z) : Z.abs z < 2 ^ prec -> fits prec z.
Proof.
  assert (K : forall m, Zpos m < 2 ^ prec -> Zpos (digits2_pos m) <= prec).
  { intros m H. pose proof (digits2_bounds m) as [L _].
    destruct (Z_le_gt_dec (Zpos (digits2_pos m)) prec) as [?|G]; [assumption|].
    assert (M : 2 ^ prec <= 2 ^ (Zpos (digits2_pos m) - 1))
      by (apply Z.pow_le_mono_r; lia).
    lia. }
  destruct z as [|m|m]; simpl; intros H; auto.
Qed.

Lemma normalize_exact (z : Z) :
  fits prec z ->
  binary_normalize prec emax z 0 false
  = match z with
    | Z0 => S754_zero false
    | Zpos m => S754_finite false (norm_m prec m) (norm_e prec m)
    | Zneg m => S754_finite true (norm_m prec m) (norm_e prec m)
    end.
Proof.
  destruct z as [|m|m]; simpl; intros H; auto using binary_round_exact.
Qed.

Lemma compare_exact (a b : Z) :
  fits prec a -> fits prec b ->
  SFcompare (binary_normalize prec emax a 0 false)
            (binary_normalize prec emax b 0 false) = Some (a ?= b).
Proof.
  intros Ha Hb. rewrite !normalize_exact by assumption.
  destruct a as [|a|a], b as [|b|b]; simpl in *; try reflexivity.
  - rewrite (compare_norm a b Ha Hb). reflexivity.
  - f_equal.
    change (CompOpp (a ?= b)%positive) with (CompOpp (Zpos a ?= Zpos b)).
    rewrite <- (compare_norm a b Ha Hb).
    destruct (norm_e prec a ?= norm_e prec b); reflexivity.
Qed.


Lemma trunc_exact (m : positive) :
  Zpos (digits2_pos m) <= prec ->
  Z.shiftl (Zpos (norm_m prec m)) (norm_e prec m) = Zpos m.
Proof.
  intros H. destruct (shl_align_norm m H) as [_ [_ V]].
  rewrite V.
  assert (E : norm_e prec m <= 0) by (unfold norm_e; lia).
  rewrite Z.shiftl_div_pow2 by lia.
  apply Z.div_mul. apply Z.pow_nonzero; lia.
Qed.

End Exact.

(** *** The two formats *)

Lemma F32_fits (z : Z) : Z.abs z < 2 ^ 24 -> fits F32.prec z.
Proof. apply fits_bound. reflexivity. Qed.

Lemma F64_fits (z : Z) : Z.abs z < 2 ^ 53 -> fits F64.prec z.
Proof. apply fits_bound. reflexivity. Qed.

Lemma F32_ltb_of_int (a b : Z) :
  Z.abs a < 2 ^ 24 -> Z.abs b < 2 ^ 24 ->
  F32.ltb (F32.of_int a) (F32.of_int b) = (a <? b).
Proof.
  intros Ha Hb. unfold F32.ltb, SFltb, F32.of_int.
  rewrite (compare_exact F32.prec F32.emax eq_refl eq_refl a b
             (F32_fits a Ha) (F32_fits b Hb)).
  unfold Z.ltb. destruct (a ?= b); reflexivity.
Qed.

Lemma F64_ltb_of_int (a b : Z) :
  Z.abs a < 2 ^ 53 -> Z.abs b < 2 ^ 53 ->
  F64.ltb (F64.of_int a) (F64.of_int b) = (a <? b).
Proof.
  intros Ha Hb. unfold F64.ltb, SFltb, F64.of_int.
  rewrite (compare_exact F64.prec F64.emax eq_refl eq_refl a b
             (F64_fits a Ha) (F64_fits b Hb)).
  unfold Z.ltb. destruct (a ?= b); reflexivity.
Qed.

Lemma F32_to_int_of_int (z : Z) :
  Z.abs z < 2 ^ 24 -> F32.to_int (F32.of_int z) = Some z.
Proof.
  intros H. pose proof (F32_fits z H) as F.
  unfold F32.of_int.
  rewrite (normalize_exact F32.prec F32.emax eq_refl eq_refl z F).
  assert (R : Int.in_range z = true).
  { unfold Int.in_range, Int.min_signed, Int.max_signed.
    change (2 ^ 31) with 2147483648. change (2 ^ 24) with 16777216 in H.
    lia. }
  destruct z as [|m|m]; unfold F32.to_int, F32.trunc.
  - reflexivity.
  - rewrite (trunc_exact F32.prec m F). simpl cond_Zopp.
    rewrite R. reflexivity.
  - rewrite (trunc_exact F32.prec m F). simpl cond_Zopp.
    rewrite R. reflexivity.
Qed.

Lemma mul_two_exact (s : bool) (m : positive) :
  Zpos (digits2_pos m) <= F32.prec ->
  F32.mul (S754_finite s (norm_m F32.prec m) (norm_e F32.prec m))
          (F32.of_int 2)
  = S754_finite s (norm_m F32.prec m) (norm_e F32.prec m + 1).
Proof.
  intros H.
  destruct (shl_align_norm F32.prec m H) as [_ [D _]].
  change (F32.of_int 2) with (S754_finite false 8388608 (-22)).
  unfold F32.mul, SFmul. rewrite xorb_false_r.
  set (nm := norm_m F32.prec m) in *. set (ne := norm_e F32.prec m).
  assert (E : ne = Zpos (digits2_pos m) - 24) by reflexivity.
  assert (M : (nm * 8388608)%positive = Pos.iter xO nm 23).
  { rewrite Pos.mul_comm. reflexivity. }
  rewrite M.
  unfold binary_round_aux, shr_fexp.
  cbn [Zdigits2 shr_record_of_loc]. rewrite digits2_shift.
  rewrite Pos2Z.inj_add, D.
  assert (F1 : fexp F32.prec F32.emax (F32.prec + 23 + (ne + -22)) - (ne + -22) = 23).
  { unfold fexp, emin, F32.prec, F32.emax. lia. }
  rewrite F1.
  assert (R : iter_pos shr_1 23
                (Build_shr_record (Zpos (Pos.iter xO nm 23)) false false)
              = Build_shr_record (Zpos nm) false false) by reflexivity.
  unfold shr. rewrite R.
  cbn [shr_m loc_of_shr_record round_nearest_even Zdigits2 shr_record_of_loc].
  rewrite D.
  assert (F2 : fexp F32.prec F32.emax (F32.prec + (ne + -22 + 23)) - (ne + -22 + 23) = 0).
  { unfold fexp, emin, F32.prec, F32.emax. lia. }
  rewrite F2. cbn [shr_m].
  assert (L : (ne + -22 + 23 <=? F32.emax - F32.prec) = true)
    by (unfold F32.prec, F32.emax in *; lia).
  rewrite L. f_equal. lia.
Qed.

Lemma exact_int_norm (s : bool) (m : positive) (k : Z) :
  Zpos (digits2_pos m) <= F32.prec -> 0 <= k <= 1 ->
  exact_int (S754_finite s (norm_m F32.prec m) (norm_e F32.prec m + k))
  = Some (cond_Zopp s (Zpos m * 2 ^ k)).
Proof.
  intros H K.
  destruct (shl_align_norm F32.prec m H) as [_ [_ V]].
  unfold exact_int. rewrite V.
  set (ne := norm_e F32.prec m) in *.
  assert (E : ne <= 0) by (unfold ne, norm_e; lia).
  destruct (Z.leb_spec 0 (ne + k)) as [P|N].
  - f_equal. f_equal. rewrite <- Z.mul_assoc, <- Z.pow_add_r by lia.
    replace (- ne + (ne + k)) with k by lia. reflexivity.
  - assert (S : 2 ^ (- ne) = 2 ^ k * 2 ^ (- (ne + k)))
      by (rewrite <- Z.pow_add_r by lia; f_equal; lia).
    assert (Q : 2 ^ (- (ne + k)) <> 0) by (apply Z.pow_nonzero; lia).
    rewrite S, !Z.mul_assoc, Z.mod_mul, Z.div_mul by exact Q.
    reflexivity.
Qed.

(** *** The numeric model on a few values *)

(** The literal [0.99] is the [double] nearest to 99/100. *)
Example damping_nearest :
  damping = F64.div (F64.of_int 99) (F64.of_int 100).
Proof. vm_compute. reflexivity. Qed.

(** Conversions to [int] truncate toward zero and are undefined out of
    range: -1.25 gives -1, 1270 gives 1270, and [INT_MAX] as a [float]
    is 2^31, which has no [int]. *)
Example to_int_samples :
  F32.to_int (ratio (-5) 4) = Some (-1) /\
  F32.to_int (F32.of_int 1270) = Some 1270 /\
  F32.to_int (F32.of_int 2147483647) = None /\
  F32.to_int S754_nan = None.
Proof. repeat (split; [vm_compute; reflexivity|]). vm_compute. reflexivity. Qed.

(** Damping 15 gives the [float] nearest to 14.85, damping -50 gives
    -49.5. *)
Example damp_samples :
  damp (F32.of_int 15) = ratio 1485 100 /\
  damp (F32.of_int (-50)) = ratio (-99) 2 /\
  exact_int (F32.mul (ratio 99 2) (F32.of_int 2)) = Some 99.
Proof. repeat (split; [vm_compute; reflexivity|]). vm_compute. reflexivity. Qed.

(** *** Comparisons *)

Lemma compare_cont_antisym (p q : positive) :
  Pos.compare_cont Eq q p = CompOpp (Pos.compare_cont Eq p q).
Proof. apply (Pos.compare_antisym p q). Qed.

Lemma SFcompare_antisym (x y : spec_float) :
  SFcompare y x = option_map CompOpp (SFcompare x y).
Proof.
  destruct x as [sx|sx| |sx mx ex], y as [sy|sy| |sy my ey]; simpl;
    try reflexivity;
    try (destruct sx; reflexivity); try (destruct sy; reflexivity);
    try (destruct sx, sy; reflexivity).
  destruct sx, sy; simpl; try reflexivity;
    rewrite (Z.compare_antisym ex ey);
    destruct (ex ?= ey); simpl; try reflexivity;
    rewrite (compare_cont_antisym mx my);
    destruct (Pos.compare_cont Eq mx my); reflexivity.
Qed.


(** [|v| < c] is the pair of tests [v < c] and [v > -c]. *)
Lemma abs_below_finite (v : float) (m : positive) (e : Z) :
  F32.ltb (F32.abs v) (S754_finite false m e)
  = F32.ltb v (S754_finite false m e) && F32.ltb (S754_finite true m e) v.
Proof.
  unfold F32.ltb, F32.abs, SFltb.
  destruct v as [s|s| |s mv ev]; simpl; try reflexivity;
    try (destruct s; reflexivity).
  destruct s; simpl.
  - rewrite (Z.compare_antisym ev e).
    destruct (ev ?= e); simpl; try reflexivity.
    rewrite (compare_cont_antisym mv m).
    destruct (Pos.compare_cont Eq mv m); reflexivity.
  - destruct (ev ?= e); try reflexivity.
    destruct (Pos.compare_cont Eq mv m); reflexivity.
Qed.

Lemma abs_below_threshold (v : float) :
  F32.ltb (F32.abs v) (F32.of_int 20)
  = F32.ltb v (F32.of_int 20) && F32.ltb (F32.of_int (-20)) v.
Proof. exact (abs_below_finite v 10485760 (-19)). Qed.

Lemma to_int_not_nan (x : float) (z : Z) :
  F32.to_int x = Some z -> F32.is_nan x = false.
Proof. destruct x; simpl; auto; discriminate. Qed.

(** *** [shiftColliders] *)

Lemma shiftColliders_Some (d d' : Dot) :
  shiftColliders d = Some d' ->
  exists ix iy,
    F32.to_int (mPosX d) = Some ix /\ F32.to_int (mPosY d) = Some iy /\
    d' = set_collider
           (mkCircle (F32.of_int ix) (F32.of_int iy) (cr (mCollider d))) d.
Proof.
  unfold shiftColliders. intros H.
  apply bind_Some in H. destruct H as [ix [Hx H]].
  apply bind_Some in H. destruct H as [iy [Hy H]].
  exists ix, iy. repeat split; congruence.
Qed.

Lemma shiftColliders_idem (d d' : Dot) :
  shiftColliders d = Some d' -> shiftColliders d' = Some d'.
Proof.
  intros H. apply shiftColliders_Some in H.
  destruct H as [ix [iy [Hx [Hy ->]]]].
  unfold shiftColliders; simpl. rewrite Hx, Hy. reflexivity.
Qed.

Lemma shiftColliders_aligned (d d' : Dot) :
  shiftColliders d = Some d' -> collider_aligned d'.
Proof.
  intros H. apply shiftColliders_Some in H.
  destruct H as [ix [iy [Hx [Hy ->]]]].
  exists ix, iy; simpl; auto.
Qed.

Lemma shiftColliders_body (d d' : Dot) :
  shiftColliders d = Some d' ->
  mPosX d' = mPosX d /\ mPosY d' = mPosY d /\
  mVelX d' = mVelX d /\ mVelY d' = mVelY d /\
  press_of d' = press_of d /\ release_of d' = release_of d /\
  cr (mCollider d') = cr (mCollider d).
Proof.
  intros H. apply shiftColliders_Some in H.
  destruct H as [ix [iy [Hx [Hy ->]]]]. simpl. repeat split.
Qed.

(** *** The resolution chain, branch by branch *)









(** Every completed resolution took exactly one of the four ways. *)
Lemma resolveX_cases tiles fooX d d' :
  resolveX tiles fooX d = Some d' ->
  (belowLow (mPosX d) = true /\
     d' = set_x lowBound (F32.opp (mVelX d)) d) \/
  (belowLow (mPosX d) = false /\ aboveHigh highBoundX (mPosX d) = true /\
     d' = set_x highBoundX (F32.opp (mVelX d)) d) \/
  (wallHitX tiles d /\ d' = set_x fooX (F32.opp (mVelX d)) d) \/
  (clearX tiles d /\ d' = d).
Proof.
  unfold resolveX, wallHitX, clearX, belowLow, aboveHigh.
  destruct (F32.ltb (mPosX d) lowBound).
  { intros H; left; split; congruence. }
  destruct (F32.ltb highBoundX (mPosX d)).
  { intros H; right; left; repeat split; congruence. }
  intros H. apply bind_Some in H. destruct H as [[|] [Ht H]].
  - right; right; left. repeat split; congruence.
  - right; right; right. repeat split; congruence.
Qed.

Lemma resolveY_cases tiles fooY d d' :
  resolveY tiles fooY d = Some d' ->
  (belowLow (mPosY d) = true /\
     d' = set_y lowBound (F32.opp (mVelY d)) d) \/
  (belowLow (mPosY d) = false /\ aboveHigh highBoundY (mPosY d) = true /\
     d' = set_y highBoundY (F32.opp (mVelY d)) d) \/
  (wallHitY tiles d /\ d' = set_y fooY (F32.opp (mVelY d)) d) \/
  (clearY tiles d /\ d' = d).
Proof.
  unfold resolveY, wallHitY, clearY, belowLow, aboveHigh.
  destruct (F32.ltb (mPosY d) lowBound).
  { intros H; left; split; congruence. }
  destruct (F32.ltb highBoundY (mPosY d)).
  { intros H; right; left; repeat split; congruence. }
  intros H. apply bind_Some in H. destruct H as [[|] [Ht H]].
  - right; right; left. repeat split; congruence.
  - right; right; right. repeat split; congruence.
Qed.

(** *** What each half of [move] leaves alone *)

Lemma resolveX_frame tiles fooX d d' :
  resolveX tiles fooX d = Some d' ->
  mPosY d' = mPosY d /\ mVelY d' = mVelY d /\
  press_of d' = press_of d /\ release_of d' = release_of d /\
  mCollider d' = mCollider d.
Proof.
  intros H. apply resolveX_cases in H.
  destruct H as [[_ ->]|[[_ [_ ->]]|[[_ ->]|[_ ->]]]]; repeat split.
Qed.

Lemma resolveY_frame tiles fooY d d' :
  resolveY tiles fooY d = Some d' ->
  mPosX d' = mPosX d /\ mVelX d' = mVelX d /\
  press_of d' = press_of d /\ release_of d' = release_of d /\
  mCollider d' = mCollider d.
Proof.
  intros H. apply resolveY_cases in H.
  destruct H as [[_ ->]|[[_ [_ ->]]|[[_ ->]|[_ ->]]]]; repeat split.
Qed.

Lemma moveX_Some tiles timeStep fooX d d' :
  moveX tiles timeStep fooX d = Some d' ->
  exists d1 d2,
    shiftColliders (integrateX timeStep d) = Some d1 /\
    resolveX tiles fooX d1 = Some d2 /\
    shiftColliders d2 = Some d'.
Proof.
  unfold moveX. intros H.
  apply bind_Some in H. destruct H as [d1 [H1 H]].
  apply bind_Some in H. destruct H as [d2 [H2 H]].
  exists d1, d2. auto.
Qed.

Lemma moveY_Some tiles timeStep fooY d d' :
  moveY tiles timeStep fooY d = Some d' ->
  exists d1 d2,
    shiftColliders (integrateY timeStep d) = Some d1 /\
    resolveY tiles fooY d1 = Some d2 /\
    shiftColliders d2 = Some d'.
Proof.
  unfold moveY. intros H.
  apply bind_Some in H. destruct H as [d1 [H1 H]].
  apply bind_Some in H. destruct H as [d2 [H2 H]].
  exists d1, d2. auto.
Qed.

Lemma moveX_frame tiles timeStep fooX d d' :
  moveX tiles timeStep fooX d = Some d' ->
  mPosY d' = mPosY d /\ mVelY d' = mVelY d /\
  press_of d' = press_of d /\ release_of d' = release_of d /\
  cr (mCollider d') = cr (mCollider d).
Proof.
  intros H. apply moveX_Some in H.
  destruct H as [d1 [d2 [H1 [H2 H3]]]].
  apply shiftColliders_body in H1, H3. apply resolveX_frame in H2.
  destruct H1 as [_ [a1 [_ [a2 [a3 [a4 a5]]]]]].
  destruct H2 as [b1 [b2 [b3 [b4 b5]]]].
  destruct H3 as [_ [c1 [_ [c2 [c3 [c4 c5]]]]]].
  rewrite c1, c2, c3, c4, c5, b1, b2, b3, b4, b5, a1, a2, a3, a4, a5.
  repeat split.
Qed.

Lemma moveY_frame tiles timeStep fooY d d' :
  moveY tiles timeStep fooY d = Some d' ->
  mPosX d' = mPosX d /\ mVelX d' = mVelX d /\
  press_of d' = press_of d /\ release_of d' = release_of d /\
  cr (mCollider d') = cr (mCollider d).
Proof.
  intros H. apply moveY_Some in H.
  destruct H as [d1 [d2 [H1 [H2 H3]]]].
  apply shiftColliders_body in H1, H3. apply resolveY_frame in H2.
  destruct H1 as [a1 [_ [a2 [_ [a3 [a4 a5]]]]]].
  destruct H2 as [b1 [b2 [b3 [b4 b5]]]].
  destruct H3 as [c1 [_ [c2 [_ [c3 [c4 c5]]]]]].
  rewrite c1, c2, c3, c4, c5, b1, b2, b3, b4, b5, a1, a2, a3, a4, a5.
  repeat split.
Qed.

Lemma moveXY_Some tiles timeStep d d' :
  moveXY tiles timeStep d = Some d' ->
  exists dx,
    moveX tiles timeStep (mPosX d) d = Some dx /\
    moveY tiles timeStep (mPosY d) dx = Some d'.
Proof.
  unfold moveXY. intros H.
  apply bind_Some in H. destruct H as [dx [H1 H]]. exists dx. auto.
Qed.

Lemma move_Some tiles timeStep d d' :
  move tiles timeStep d = Some d' ->
  exists d2, moveXY tiles timeStep d = Some d2 /\ d' = settle d2.
Proof.
  unfold move. intros H.
  apply bind_Some in H. destruct H as [d2 [H1 H]].
  exists d2. split; congruence.
Qed.

(** *** The closing test *)

Lemma slow_abs (d : Dot) :
  slow d = F32.ltb (F32.abs (mVelX d)) (F32.of_int 20)
           && F32.ltb (F32.abs (mVelY d)) (F32.of_int 20).
Proof.
  unfold slow. rewrite !abs_below_threshold, !andb_assoc. reflexivity.
Qed.

Lemma settle_position (d : Dot) :
  mPosX (settle d) = mPosX d /\ mPosY (settle d) = mPosY d /\
  mCollider (settle d) = mCollider d /\
  press_of (settle d) = press_of d /\ release_of (settle d) = release_of d.
Proof. unfold settle. destruct (slow d); repeat split. Qed.

(* ================================================================== *)
(** ** Collision test *)

(** A circle tangent to the box does not collide, one unit closer does. *)
Example tangent_circle_is_clear :
  checkCollision (mkCircle (F32.of_int 90) (F32.of_int 40) (F32.of_int 10))
                 origin_box = Some false
  /\ checkCollision (mkCircle (F32.of_int 89) (F32.of_int 40) (F32.of_int 10))
                    origin_box = Some true.
Proof. split; vm_compute; reflexivity. Qed.


(* ================================================================== *)
(** ** The movement step *)



(** The threshold is strict and tested per axis: a component of exactly
    20 keeps the dot moving, and (19, 19) settles although its magnitude
    exceeds 20. *)
Example settle_strict_and_per_axis :
  let at_v vx vy :=
    dot_at (F32.of_int 100) (F32.of_int 100)
           (F32.of_int vx) (F32.of_int vy) 100 100 in
  velocity_of (settle (at_v 20 0)) = (F32.of_int 20, F32.of_int 0) /\
  velocity_of (settle (at_v 0 (-20))) = (F32.of_int 0, F32.of_int (-20)) /\
  velocity_of (settle (at_v 19 19)) = (F32.of_int 0, F32.of_int 0) /\
  velocity_of (settle (at_v 19 25)) = (F32.of_int 19, F32.of_int 25).
Proof.
  repeat (split; [vm_compute; reflexivity|]). vm_compute. reflexivity.
Qed.



(** The same bounce on the vertical axis, under the wall tile. *)
Example wall_bounce_below_tile :
  let t := ratio 1 8 in
  forall d', move corner_wall_map t dot_under_wall = Some d' ->
  mPosY d' = F32.of_int 90 /\ mVelY d' = F32.of_int 198.
Proof.
  intros t d' H. vm_compute in H. injection H as <-.
  split; vm_compute; reflexivity.
Qed.



(* ================================================================== *)
(** ** The event handler *)

Lemma atRest_zero (d : Dot) :
  atRest d = true ->
  exists sx sy, mVelX d = S754_zero sx /\ mVelY d = S754_zero sy.
Proof.
  unfold atRest. intros H. apply andb_prop in H. destruct H as [Hx Hy].
  destruct (mVelX d) as [sx|sx| |sx mx ex] eqn:Ex;
    try (destruct sx; discriminate Hx); try discriminate Hx.
  destruct (mVelY d) as [sy|sy| |sy my ey] eqn:Ey;
    try (destruct sy; discriminate Hy); try discriminate Hy.
  exists sx, sy. auto.
Qed.

Lemma zero_atRest (d : Dot) (sx sy : bool) :
  mVelX d = S754_zero sx -> mVelY d = S754_zero sy -> atRest d = true.
Proof. unfold atRest. intros -> ->. reflexivity. Qed.

Lemma handleEvent_moving (e : SDL_Event) (d : Dot) :
  atRest d = false -> handleEvent e d = d.
Proof. unfold handleEvent. intros ->. reflexivity. Qed.

Lemma handleEvent_press (d : Dot) (x y : Z) :
  atRest d = true ->
  press_of (handleEvent (SDL_MOUSEBUTTONDOWN x y) d) = (x, y) /\
  velocity_of (handleEvent (SDL_MOUSEBUTTONDOWN x y) d) = velocity_of d /\
  atRest (handleEvent (SDL_MOUSEBUTTONDOWN x y) d) = true.
Proof.
  intros H. unfold handleEvent. rewrite H.
  split; [reflexivity|]. split; [reflexivity|]. exact H.
Qed.

Lemma handleEvent_release (d : Dot) (x y : Z) :
  atRest d = true ->
  velocity_of (handleEvent (SDL_MOUSEBUTTONUP x y) d)
  = (F32.add (mVelX d) (fst (impulse d x y)),
     F32.add (mVelY d) (snd (impulse d x y))) /\
  release_of (handleEvent (SDL_MOUSEBUTTONUP x y) d) = (x, y) /\
  press_of (handleEvent (SDL_MOUSEBUTTONUP x y) d) = press_of d.
Proof.
  intros H. unfold handleEvent. rewrite H.
  split; [reflexivity|]. split; reflexivity.
Qed.

(** The press a handler leaves behind. *)
Lemma handleEvent_stored_press (e : SDL_Event) (d : Dot) :
  press_of (handleEvent e d)
  = match e with
    | SDL_MOUSEBUTTONDOWN x y => if atRest d then (x, y) else press_of d
    | _ => press_of d
    end.
Proof.
  unfold handleEvent. destruct (atRest d), e; reflexivity.
Qed.

Lemma move_stored_press tiles timeStep d d' :
  move tiles timeStep d = Some d' -> press_of d' = press_of d.
Proof.
  intros H. apply move_Some in H. destruct H as [d2 [H ->]].
  apply moveXY_Some in H. destruct H as [dx [Hx Hy]].
  destruct (moveX_frame _ _ _ _ _ Hx) as [_ [_ [px _]]].
  destruct (moveY_frame _ _ _ _ _ Hy) as [_ [_ [py _]]].
  destruct (settle_position d2) as [_ [_ [_ [ps _]]]].
  rewrite ps, py, px. reflexivity.
Qed.

(** *** A dot at rest stays at rest *)

Lemma damp_zero (s : bool) : damp (S754_zero s) = S754_zero s.
Proof. destruct s; vm_compute; reflexivity. Qed.

Lemma moveX_velocity tiles timeStep fooX d d' :
  moveX tiles timeStep fooX d = Some d' ->
  mVelX d' = damp (mVelX d) \/ mVelX d' = F32.opp (damp (mVelX d)).
Proof.
  intros H. apply moveX_Some in H. destruct H as [d1 [d2 [H1 [H2 H3]]]].
  apply shiftColliders_body in H1, H3.
  destruct H1 as [_ [_ [v1 _]]]. destruct H3 as [_ [_ [v3 _]]].
  simpl in v1. rewrite v3.
  apply resolveX_cases in H2.
  destruct H2 as [[_ ->]|[[_ [_ ->]]|[[_ ->]|[_ ->]]]]; simpl;
    rewrite v1; auto.
Qed.

Lemma moveY_velocity tiles timeStep fooY d d' :
  moveY tiles timeStep fooY d = Some d' ->
  mVelY d' = damp (mVelY d) \/ mVelY d' = F32.opp (damp (mVelY d)).
Proof.
  intros H. apply moveY_Some in H. destruct H as [d1 [d2 [H1 [H2 H3]]]].
  apply shiftColliders_body in H1, H3.
  destruct H1 as [_ [_ [_ [v1 _]]]]. destruct H3 as [_ [_ [_ [v3 _]]]].
  simpl in v1. rewrite v3.
  apply resolveY_cases in H2.
  destruct H2 as [[_ ->]|[[_ [_ ->]]|[[_ ->]|[_ ->]]]]; simpl;
    rewrite v1; auto.
Qed.

Lemma slow_zero (d : Dot) (sx sy : bool) :
  mVelX d = S754_zero sx -> mVelY d = S754_zero sy -> slow d = true.
Proof. unfold slow. intros -> ->. vm_compute. reflexivity. Qed.

Lemma move_at_rest tiles timeStep d d' :
  atRest d = true -> move tiles timeStep d = Some d' ->
  atRest d' = true /\ press_of d' = press_of d.
Proof.
  intros R H. split; [|exact (move_stored_press _ _ _ _ H)].
  apply atRest_zero in R. destruct R as [sx [sy [Vx Vy]]].
  apply move_Some in H. destruct H as [d2 [H ->]].
  apply moveXY_Some in H. destruct H as [dx [Hx Hy]].
  destruct (moveX_frame _ _ _ _ _ Hx) as [_ [wy _]].
  destruct (moveY_frame _ _ _ _ _ Hy) as [_ [wx _]].
  assert (Zx : exists s, mVelX d2 = S754_zero s).
  { rewrite wx. destruct (moveX_velocity _ _ _ _ _ Hx) as [E|E];
      rewrite E, Vx, damp_zero; simpl; eauto. }
  assert (Zy : exists s, mVelY d2 = S754_zero s).
  { destruct (moveY_velocity _ _ _ _ _ Hy) as [E|E];
      rewrite E, wy, Vy, damp_zero; simpl; eauto. }
  destruct Zx as [s1 Zx]. destruct Zy as [s2 Zy].
  unfold settle. rewrite (slow_zero _ _ _ Zx Zy). reflexivity.
Qed.

Lemma frames_at_rest tiles (steps : list float) :
  forall d d',
    atRest d = true -> run tiles (map Frame steps) d = Some d' ->
    atRest d' = true /\ press_of d' = press_of d.
Proof.
  induction steps as [|t steps IH]; simpl; intros d d' R H.
  - injection H as <-. auto.
  - apply bind_Some in H. destruct H as [d1 [H1 H]].
    destruct (move_at_rest _ _ _ _ R H1) as [R1 P1].
    destruct (IH _ _ R1 H) as [R' P']. split; congruence.
Qed.

(** *** The impulse is exact *)

Lemma wrap32_small (z : Z) :
  - 2147483648 <= z <= 2147483647 -> Int.wrap32 z = z.
Proof.
  intros H. unfold Int.wrap32.
  change (2 ^ 31) with 2147483648. change (2 ^ 32) with 4294967296.
  rewrite Z.mod_small by lia. lia.
Qed.

Lemma impulse_exact (k : Z) (s : bool) :
  Z.abs k <= drag_span ->
  exact_int (F32.add (S754_zero s) (F32.mul (F32.of_int k) (F32.of_int 2)))
  = Some (2 * k).
Proof.
  intros H.
  assert (B : Z.abs k < 2 ^ 24)
    by (change (2 ^ 24) with 16777216; unfold drag_span in H; lia).
  pose proof (F32_fits k B) as F.
  unfold F32.of_int at 1.
  rewrite (normalize_exact F32.prec F32.emax eq_refl eq_refl k F).
  destruct k as [|m|m].
  - destruct s; vm_compute; reflexivity.
  - rewrite (mul_two_exact false m F). unfold F32.add, SFadd.
    rewrite (exact_int_norm false m 1 F) by lia. simpl cond_Zopp.
    f_equal. lia.
  - rewrite (mul_two_exact true m F). unfold F32.add, SFadd.
    rewrite (exact_int_norm true m 1 F) by lia. simpl cond_Zopp.
    f_equal. lia.
Qed.

(** *** Runs *)

Lemma feed_stored_press tiles (i : Input) (d d' : Dot) :
  feed tiles i d = Some d' ->
  press_of d'
  = match i with
    | Event (SDL_MOUSEBUTTONDOWN x y) => if atRest d then (x, y) else press_of d
    | _ => press_of d
    end.
Proof.
  destruct i as [e|t]; simpl; intros H.
  - injection H as <-. rewrite handleEvent_stored_press.
    destruct e; reflexivity.
  - exact (move_stored_press _ _ _ _ H).
Qed.

Lemma run_stored_press tiles (inputs : list Input) :
  forall d d' p,
    run tiles inputs d = Some d' ->
    press_of d = p ->
    press_of d' = last_press_at_rest tiles inputs d p.
Proof.
  induction inputs as [|i rest IH]; simpl; intros d d' p H P.
  - injection H as <-. exact P.
  - apply bind_Some in H. destruct H as [d1 [H1 H]].
    rewrite H1. apply (IH _ _ _ H).
    rewrite (feed_stored_press _ _ _ _ H1), P.
    destruct i as [[x y|x y|]|t]; reflexivity.
Qed.

Lemma Dot_new_fields junk x y d :
  Dot_new junk x y = Some d ->
  press_of d = (junk_x_down junk, junk_y_down junk) /\
  release_of d = (junk_x_up junk, junk_y_up junk) /\
  mVelX d = F32.of_int 0 /\ mVelY d = F32.of_int 0 /\
  mPosX d = F32.of_int x /\ mPosY d = F32.of_int y /\
  cr (mCollider d) = F32.of_int 10.
Proof.
  unfold Dot_new. intros H. apply shiftColliders_body in H.
  destruct H as [px [py [vx [vy [p [r c]]]]]].
  simpl in *. repeat (split; [assumption|]). exact c.
Qed.

(** C5, counterexample to the claim as the design document states it.
    The dot of [main] is set moving by a first drag; the press at
    (105, 100) arrives while it moves; a frame later it has settled, and
    the release at (200, 300) adds [(press - release) * 2] to a dot that
    was not at rest when the press was observed. *)
Lemma impulse_after_press_while_moving :
  (exists d0, main_dot = Some d0 /\
              run open_map first_drag d0 = Some moving_dot) /\
  atRest moving_dot = false /\
  run open_map [Event (SDL_MOUSEBUTTONDOWN 105 100); Frame (ratio 1 4)]
      moving_dot = Some settled_dot /\
  velocity_of settled_dot = (F32.of_int 0, F32.of_int 0) /\
  velocity_of (handleEvent (SDL_MOUSEBUTTONUP 200 300) settled_dot)
  = (F32.of_int (2 * (105 - 200)), F32.of_int (2 * (100 - 300))).
Proof.
  split.
  { exists (state_or slow_dot main_dot). split; vm_compute; reflexivity. }
  split; [|split; [|split]]; vm_compute; reflexivity.
Qed.

(** C5, amended to what the source does. The guard is evaluated when the release is
    handled: a release adds [(stored press - release) * 2] to the
    velocity exactly when the dot is at rest at that moment, and leaves
    the dot untouched otherwise. When the press at [(px, py)] was handled
    at rest and only frames separate it from the release at [(rx, ry)],
    the stored press is that press and the velocity after the release is
    exactly [(2 * (px - rx), 2 * (py - ry))]. *)
Theorem impulse_gated_at_release :
  (forall d x y,
      atRest d = false -> handleEvent (SDL_MOUSEBUTTONUP x y) d = d)
  /\
  (forall d x y,
      atRest d = true ->
      velocity_of (handleEvent (SDL_MOUSEBUTTONUP x y) d)
      = (F32.add (mVelX d) (fst (impulse d x y)),
         F32.add (mVelY d) (snd (impulse d x y))))
  /\
  (forall tiles steps d d1 px py x y,
      atRest d = true ->
      run tiles (map Frame steps) (handleEvent (SDL_MOUSEBUTTONDOWN px py) d)
      = Some d1 ->
      Z.abs (px - x) <= drag_span -> Z.abs (py - y) <= drag_span ->
      exact_int (mVelX (handleEvent (SDL_MOUSEBUTTONUP x y) d1))
      = Some (2 * (px - x)) /\
      exact_int (mVelY (handleEvent (SDL_MOUSEBUTTONUP x y) d1))
      = Some (2 * (py - y))).
Proof.
  split; [|split].
  - intros d x y H. apply handleEvent_moving. exact H.
  - intros d x y H. apply (handleEvent_release d x y H).
  - intros tiles steps d d1 px py x y R H Bx By.
    destruct (handleEvent_press d px py R) as [P [_ R0]].
    destruct (frames_at_rest _ _ _ _ R0 H) as [R1 P1].
    rewrite P in P1. injection P1 as Px Py.
    destruct (atRest_zero _ R1) as [sx [sy [Vx Vy]]].
    unfold handleEvent. rewrite R1. simpl.
    rewrite Vx, Vy, Px, Py.
    unfold Int.sub. unfold drag_span in *.
    rewrite !wrap32_small by lia.
    split; apply impulse_exact; unfold drag_span; assumption.
Qed.

Lemma impulse_gated_at_release_witness :
  let d0 := state_or slow_dot main_dot in
  let d1 := state_or slow_dot
              (run open_map (map Frame [ratio 1 60; ratio 1 60])
                   (handleEvent (SDL_MOUSEBUTTONDOWN 300 200) d0)) in
  (atRest d0 = true /\
   run open_map (map Frame [ratio 1 60; ratio 1 60])
       (handleEvent (SDL_MOUSEBUTTONDOWN 300 200) d0) = Some d1 /\
   Z.abs (300 - 250) <= drag_span /\ Z.abs (200 - 320) <= drag_span)
  /\ exact_int (mVelX (handleEvent (SDL_MOUSEBUTTONUP 250 320) d1))
     = Some 100
  /\ exact_int (mVelY (handleEvent (SDL_MOUSEBUTTONUP 250 320) d1))
     = Some (-240).
Proof.
  intros d0 d1.
  assert (R : atRest d0 = true) by (vm_compute; reflexivity).
  assert (H : run open_map (map Frame [ratio 1 60; ratio 1 60])
                  (handleEvent (SDL_MOUSEBUTTONDOWN 300 200) d0) = Some d1)
    by (vm_compute; reflexivity).
  assert (Bx : Z.abs (300 - 250) <= drag_span) by (unfold drag_span; lia).
  assert (By : Z.abs (200 - 320) <= drag_span) by (unfold drag_span; lia).
  split; [exact (conj R (conj H (conj Bx By)))|].
  exact (proj2 (proj2 impulse_gated_at_release)
           open_map [ratio 1 60; ratio 1 60] d0 d1 300 200 250 320
           R H Bx By).
Defined.

(** C6, counterexample to the claim as stated. A press and a
    release that arrive while the dot moves are not stored: the press
    and release members keep the coordinates of the first drag. *)
Lemma press_while_moving_not_recorded :
  atRest moving_dot = false /\
  press_of (handleEvent (SDL_MOUSEBUTTONDOWN 300 300) moving_dot)
  = (105, 100) /\
  release_of (handleEvent (SDL_MOUSEBUTTONUP 200 300) moving_dot)
  = (100, 100).
Proof. split; [|split]; vm_compute; reflexivity. Qed.

(** C6, amended to what the source does. While the dot moves, an event of any kind
    leaves the whole dot as it was: the coordinates are not stored, the
    velocity does not change, and since nothing is kept no later event
    can apply it. *)
Theorem events_ignored_while_moving :
  forall e d,
    atRest d = false ->
    handleEvent e d = d /\
    press_of (handleEvent e d) = press_of d /\
    release_of (handleEvent e d) = release_of d /\
    velocity_of (handleEvent e d) = velocity_of d.
Proof.
  intros e d H. rewrite (handleEvent_moving e d H).
  split; [|split; [|split]]; reflexivity.
Qed.

Lemma events_ignored_while_moving_witness :
  atRest moving_dot = false /\
  handleEvent (SDL_MOUSEBUTTONDOWN 300 300) moving_dot = moving_dot.
Proof.
  assert (H : atRest moving_dot = false) by (vm_compute; reflexivity).
  split; [exact H|].
  exact (proj1 (events_ignored_while_moving
                  (SDL_MOUSEBUTTONDOWN 300 300) moving_dot H)).
Defined.

(** C10. The constructor leaves the four mouse members as it finds
    them, whatever the storage held. A release handled at rest takes its
    impulse from the stored press; after any run this is the last press
    that was handled at rest, and the content of the storage at
    construction when there was none: so right after construction the
    impulse comes from indeterminate values, and a press that arrives
    while the dot moves leaves the press of an earlier drag in place. *)
Theorem stored_press_indeterminate_then_stale :
  (forall junk x y d,
      Dot_new junk x y = Some d ->
      press_of d = (junk_x_down junk, junk_y_down junk) /\
      release_of d = (junk_x_up junk, junk_y_up junk))
  /\
  (forall d x y,
      atRest d = true ->
      velocity_of (handleEvent (SDL_MOUSEBUTTONUP x y) d)
      = (F32.add (mVelX d)
           (F32.mul (F32.of_int (Int.sub (mouseX_down d) x)) (F32.of_int 2)),
         F32.add (mVelY d)
           (F32.mul (F32.of_int (Int.sub (mouseY_down d) y)) (F32.of_int 2))))
  /\
  (forall tiles inputs d d',
      run tiles inputs d = Some d' ->
      press_of d' = last_press_at_rest tiles inputs d (press_of d))
  /\
  (forall junk x y d rx ry,
      Dot_new junk x y = Some d ->
      velocity_of (handleEvent (SDL_MOUSEBUTTONUP rx ry) d)
      = (F32.add (F32.of_int 0)
           (F32.mul (F32.of_int (Int.sub (junk_x_down junk) rx))
                    (F32.of_int 2)),
         F32.add (F32.of_int 0)
           (F32.mul (F32.of_int (Int.sub (junk_y_down junk) ry))
                    (F32.of_int 2))))
  /\
  (forall tiles e d d' steps,
      atRest d = false ->
      run tiles (Event e :: map Frame steps) d = Some d' ->
      press_of d' = press_of d).
Proof.
  split; [|split; [|split; [|split]]].
  - intros junk x y d H. apply Dot_new_fields in H.
    destruct H as [P [R _]]. auto.
  - intros d x y H. apply (handleEvent_release d x y H).
  - intros tiles inputs d d' H. apply (run_stored_press _ _ _ _ _ H).
    reflexivity.
  - intros junk x y d rx ry H. apply Dot_new_fields in H.
    destruct H as [P [_ [Vx [Vy _]]]]. injection P as Px Py.
    assert (R : atRest d = true).
    { unfold atRest. rewrite Vx, Vy. vm_compute. reflexivity. }
    rewrite (proj1 (handleEvent_release d rx ry R)).
    unfold impulse. simpl. rewrite Vx, Vy, Px, Py. reflexivity.
  - intros tiles e d d' steps M H.
    simpl in H. rewrite (handleEvent_moving e d M) in H.
    clear M. revert d H.
    induction steps as [|t steps IH]; simpl; intros d H.
    + injection H as <-. reflexivity.
    + apply bind_Some in H. destruct H as [d1 [H1 H]].
      rewrite (IH _ H). exact (move_stored_press _ _ _ _ H1).
Qed.

Lemma stored_press_indeterminate_then_stale_witness :
  let d' := state_or slow_dot (run open_map late_press moving_dot) in
  (atRest moving_dot = false /\
   run open_map late_press moving_dot = Some d')
  /\ press_of d' = (105, 100)
  /\ velocity_of (handleEvent (SDL_MOUSEBUTTONUP 200 300) d')
     = (F32.of_int (2 * (105 - 200)), F32.of_int (2 * (100 - 300))).
Proof.
  intros d'.
  assert (M : atRest moving_dot = false) by (vm_compute; reflexivity).
  assert (H : run open_map late_press moving_dot = Some d')
    by (vm_compute; reflexivity).
  split; [exact (conj M H)|]. split.
  - rewrite (proj2 (proj2 (proj2 (proj2 stored_press_indeterminate_then_stale)))
               open_map (SDL_MOUSEBUTTONDOWN 300 300) moving_dot d'
               [ratio 1 4] M H).
    vm_compute. reflexivity.
  - vm_compute. reflexivity.
Defined.

(** A release right after construction: the impulse is computed from
    what the storage held, here 7 and 8. *)
Example release_before_any_press :
  forall d, main_dot = Some d ->
  exact_int (mVelX (handleEvent (SDL_MOUSEBUTTONUP 100 100) d))
  = Some (2 * (7 - 100)) /\
  exact_int (mVelY (handleEvent (SDL_MOUSEBUTTONUP 100 100) d))
  = Some (2 * (8 - 100)).
Proof.
  intros d H. vm_compute in H. injection H as <-.
  split; vm_compute; reflexivity.
Qed.

(* ================================================================== *)
(** ** The playfield *)







Lemma handleEvent_position (e : SDL_Event) (d : Dot) :
  mPosX (handleEvent e d) = mPosX d /\ mPosY (handleEvent e d) = mPosY d /\
  mCollider (handleEvent e d) = mCollider d.
Proof.
  unfold handleEvent. destruct (atRest d), e; split; try split; reflexivity.
Qed.





(* ================================================================== *)
(** ** The collider *)

Lemma settle_aligned (d : Dot) :
  collider_aligned d -> collider_aligned (settle d).
Proof.
  unfold collider_aligned. destruct (settle_position d) as [px [py [c _]]].
  rewrite px, py, c. auto.
Qed.

Lemma handleEvent_aligned (e : SDL_Event) (d : Dot) :
  collider_aligned d -> collider_aligned (handleEvent e d).
Proof.
  unfold collider_aligned. destruct (handleEvent_position e d) as [px [py c]].
  rewrite px, py, c. auto.
Qed.

Lemma move_phases tiles timeStep d d' :
  move tiles timeStep d = Some d' ->
  exists d1 r1 d2 d3 r3 d4,
    shiftColliders (integrateX timeStep d) = Some d1 /\
    resolveX tiles (mPosX d) d1 = Some r1 /\
    shiftColliders r1 = Some d2 /\
    shiftColliders (integrateY timeStep d2) = Some d3 /\
    resolveY tiles (mPosY d) d3 = Some r3 /\
    shiftColliders r3 = Some d4 /\
    d' = settle d4.
Proof.
  intros H. apply move_Some in H. destruct H as [d4 [H ->]].
  apply moveXY_Some in H. destruct H as [d2 [Hx Hy]].
  apply moveX_Some in Hx. destruct Hx as [d1 [r1 [H1 [H2 H3]]]].
  apply moveY_Some in Hy. destruct Hy as [d3 [r3 [H4 [H5 H6]]]].
  exists d1, r1, d2, d3, r3, d4. repeat (split; [assumption|]). reflexivity.
Qed.

Lemma move_radius tiles timeStep d d' :
  move tiles timeStep d = Some d' ->
  cr (mCollider d') = cr (mCollider d).
Proof.
  intros H. apply move_Some in H. destruct H as [d2 [H ->]].
  apply moveXY_Some in H. destruct H as [dx [Hx Hy]].
  destruct (moveX_frame _ _ _ _ _ Hx) as [_ [_ [_ [_ rx_]]]].
  destruct (moveY_frame _ _ _ _ _ Hy) as [_ [_ [_ [_ ry_]]]].
  destruct (settle_position d2) as [_ [_ [c _]]].
  rewrite c, ry_, rx_. reflexivity.
Qed.

Lemma feed_aligned tiles (i : Input) (d d' : Dot) :
  collider_aligned d -> feed tiles i d = Some d' ->
  collider_aligned d' /\ cr (mCollider d') = cr (mCollider d).
Proof.
  destruct i as [e|t]; simpl; intros A H.
  - injection H as <-. split; [exact (handleEvent_aligned e d A)|].
    destruct (handleEvent_position e d) as [_ [_ c]]. rewrite c. reflexivity.
  - split; [|exact (move_radius _ _ _ _ H)].
    apply move_phases in H.
    destruct H as [d1 [r1 [d2 [d3 [r3 [d4 [_ [_ [_ [_ [_ [H6 ->]]]]]]]]]]]].
    apply settle_aligned. exact (shiftColliders_aligned _ _ H6).
Qed.

(** C8, counterexample to the claim as stated. After the step
    that takes the dragged dot of [main] from x = 10 to x = 12.5 the
    collider's centre is at x = 12: the position and the centre differ. *)
Lemma collider_centre_differs_from_position :
  exists d', move open_map (ratio 1 4) moving_dot = Some d' /\
             mPosX d' = ratio 25 2 /\
             cx (mCollider d') = F32.of_int 12 /\
             ~ collider_on_position d'.
Proof.
  exists (state_or slow_dot (move open_map (ratio 1 4) moving_dot)).
  split; [vm_compute; reflexivity|].
  split; [vm_compute; reflexivity|].
  split; [vm_compute; reflexivity|].
  intros [H _]. vm_compute in H. discriminate H.
Qed.

(** C8, amended to what the source does. [shiftColliders] stores [int(position)] in
    the centre: after construction, after the integration of each axis,
    after the resolution of each axis and at the end of the step, the
    centre is the position truncated toward zero to an [int]. Events
    move neither. The radius is 10 from construction on and no step and
    no event changes it. *)
Theorem collider_follows_truncated_position :
  (forall junk x y d,
      Dot_new junk x y = Some d ->
      collider_aligned d /\ cr (mCollider d) = F32.of_int 10)
  /\
  (forall tiles timeStep d d',
      move tiles timeStep d = Some d' ->
      exists d1 r1 d2 d3 r3 d4,
        (shiftColliders (integrateX timeStep d) = Some d1 /\
         resolveX tiles (mPosX d) d1 = Some r1 /\
         shiftColliders r1 = Some d2 /\
         shiftColliders (integrateY timeStep d2) = Some d3 /\
         resolveY tiles (mPosY d) d3 = Some r3 /\
         shiftColliders r3 = Some d4 /\
         d' = settle d4) /\
        collider_aligned d1 /\ collider_aligned d2 /\
        collider_aligned d3 /\ collider_aligned d4 /\
        collider_aligned d' /\
        cr (mCollider d1) = cr (mCollider d) /\
        cr (mCollider d2) = cr (mCollider d) /\
        cr (mCollider d3) = cr (mCollider d) /\
        cr (mCollider d') = cr (mCollider d))
  /\
  (forall e d,
      collider_aligned d ->
      collider_aligned (handleEvent e d) /\
      mCollider (handleEvent e d) = mCollider d)
  /\
  (forall tiles inputs d0 d,
      main_dot = Some d0 -> run tiles inputs d0 = Some d ->
      collider_aligned d /\ cr (mCollider d) = F32.of_int 10).
Proof.
  split; [|split; [|split]].
  - intros junk x y d H. split.
    + unfold Dot_new in H. exact (shiftColliders_aligned _ _ H).
    + apply Dot_new_fields in H. apply H.
  - intros tiles timeStep d d' H.
    pose proof (move_radius _ _ _ _ H) as R.
    apply move_phases in H.
    destruct H as [d1 [r1 [d2 [d3 [r3 [d4 [H1 [H2 [H3 [H4 [H5 [H6 E]]]]]]]]]]]].
    exists d1, r1, d2, d3, r3, d4.
    split; [repeat (split; [assumption|]); exact E|].
    pose proof (shiftColliders_aligned _ _ H1) as A1.
    pose proof (shiftColliders_aligned _ _ H3) as A2.
    pose proof (shiftColliders_aligned _ _ H4) as A3.
    pose proof (shiftColliders_aligned _ _ H6) as A4.
    assert (R1 : cr (mCollider d1) = cr (mCollider d)).
    { apply shiftColliders_body in H1. apply H1. }
    assert (R2 : cr (mCollider d2) = cr (mCollider d)).
    { apply shiftColliders_body in H3. apply resolveX_frame in H2.
      destruct H3 as [_ [_ [_ [_ [_ [_ c3]]]]]].
      destruct H2 as [_ [_ [_ [_ c2]]]]. rewrite c3, c2. exact R1. }
    assert (R3 : cr (mCollider d3) = cr (mCollider d)).
    { apply shiftColliders_body in H4.
      destruct H4 as [_ [_ [_ [_ [_ [_ c4]]]]]]. rewrite c4. exact R2. }
    repeat (split; [assumption|]).
    split; [rewrite E; exact (settle_aligned _ A4)|].
    repeat (split; [assumption|]). exact R.
  - intros e d A. split; [exact (handleEvent_aligned e d A)|].
    apply handleEvent_position.
  - intros tiles inputs d0 d H0 H.
    assert (I0 : collider_aligned d0 /\ cr (mCollider d0) = F32.of_int 10).
    { unfold main_dot in H0. split.
      - exact (shiftColliders_aligned _ _ H0).
      - apply Dot_new_fields in H0. apply H0. }
    clear H0. revert d0 I0 H.
    induction inputs as [|i rest IH]; simpl; intros d0 [A0 R0] H.
    + injection H as <-. auto.
    + apply bind_Some in H. destruct H as [d1 [H1 H]].
      destruct (feed_aligned _ _ _ _ A0 H1) as [A1 R1].
      apply (IH d1); [|exact H]. split; [exact A1|congruence].
Qed.

Lemma collider_follows_truncated_position_witness :
  let d' := state_or slow_dot (move open_map (ratio 1 4) moving_dot) in
  move open_map (ratio 1 4) moving_dot = Some d'
  /\ collider_aligned d'
  /\ F32.to_int (mPosX d') = Some 12
  /\ cx (mCollider d') = F32.of_int 12.
Proof.
  intros d'.
  assert (H : move open_map (ratio 1 4) moving_dot = Some d')
    by (vm_compute; reflexivity).
  split; [exact H|].
  destruct (proj1 (proj2 collider_follows_truncated_position)
              open_map (ratio 1 4) moving_dot d' H)
    as [d1 [r1 [d2 [d3 [r3 [d4 [_ [_ [_ [_ [_ [A _]]]]]]]]]]]].
  split; [exact A|].
  split; vm_compute; reflexivity.
Defined.

(* ================================================================== *)
(** ** Loading the tile map *)

Lemma valid_code_in_range (c : Z) :
  valid_code c = true -> Int.in_range c = true.
Proof.
  unfold valid_code, Int.in_range, Int.min_signed, Int.max_signed,
    TOTAL_TILE_SPRITES.
  change (2 ^ 31) with 2147483648. lia.
Qed.

(** The offsets after a tile: one column to the right, or the start of
    the next row. *)
Lemma grid_advance (i : Z) :
  0 <= i < 192 ->
  (let x1 := Int.add (fst (grid_position i)) TILE_WIDTH in
   if SCREEN_WIDTH <=? x1
   then (0, Int.add (snd (grid_position i)) TILE_HEIGHT)
   else (x1, snd (grid_position i)))
  = grid_position (i + 1).
Proof.
  intros B. unfold grid_position, Int.add, TILE_WIDTH, TILE_HEIGHT,
    SCREEN_WIDTH. cbn [fst snd].
  assert (Hm : 0 <= i mod 16 < 16) by (apply Z.mod_pos_bound; lia).
  assert (Hd : 0 <= i / 16 < 12)
    by (split; [apply Z.div_pos; lia | apply Z.div_lt_upper_bound; lia]).
  pose proof (Z.div_mod i 16 ltac:(lia)) as E.
  rewrite !wrap32_small by lia.
  destruct (Z.eq_dec (i mod 16) 15) as [F|F].
  - assert (Q : (i + 1) / 16 = i / 16 + 1)
      by (symmetry; apply (Z.div_unique (i + 1) 16 (i / 16 + 1) 0); lia).
    assert (R : (i + 1) mod 16 = 0)
      by (symmetry; apply (Z.mod_unique (i + 1) 16 (i / 16 + 1) 0); lia).
    rewrite Q, R, F. destruct (1280 <=? 80 * 15 + 80) eqn:T; [|lia].
    f_equal; lia.
  - assert (Q : (i + 1) / 16 = i / 16)
      by (symmetry;
          apply (Z.div_unique (i + 1) 16 (i / 16) (i mod 16 + 1)); lia).
    assert (R : (i + 1) mod 16 = i mod 16 + 1)
      by (symmetry;
          apply (Z.mod_unique (i + 1) 16 (i / 16) (i mod 16 + 1)); lia).
    rewrite Q, R. destruct (1280 <=? 80 * (i mod 16) + 80) eqn:T; [lia|].
    f_equal; lia.
Qed.

Lemma setTiles_loop_spec (n : nat) :
  forall i stream,
    0 <= i -> i + Z.of_nat n <= 192 ->
    let r := setTiles_loop n (fst (grid_position i)) (snd (grid_position i))
                           stream in
    fst r = (n <=? length stream)%nat && forallb valid_code (firstn n stream)
    /\ (fst r = true -> snd r = tiles_from i (firstn n stream)).
Proof.
  induction n as [|n IH]; intros i stream Hi Hn.
  - simpl. split; reflexivity.
  - cbn zeta. cbn [setTiles_loop].
    destruct stream as [|c rest]; [simpl; split; [reflexivity|discriminate]|].
    cbn [extract firstn forallb length].
    destruct (valid_code c) eqn:V.
    + rewrite (valid_code_in_range c V).
      unfold valid_code in V. rewrite V.
      pose proof (grid_advance i ltac:(lia)) as G. cbn zeta in G.
      specialize (IH (i + 1) rest ltac:(lia) ltac:(lia)). cbn zeta in IH.
      rewrite <- G in IH.
      destruct (SCREEN_WIDTH <=? Int.add (fst (grid_position i)) TILE_WIDTH);
        cbn [fst snd] in IH;
        destruct (setTiles_loop n _ _ rest) as [ok ts];
        cbn [fst snd] in *; destruct IH as [I1 I2];
        (split; [exact I1 | intros T; rewrite (I2 T); reflexivity]).
    + rewrite andb_false_r.
      destruct (Int.in_range c); [|split; [reflexivity|discriminate]].
      unfold valid_code in V. rewrite V.
      split; [reflexivity|discriminate].
Qed.

Lemma tiles_from_length (codes : list Z) :
  forall i, length (tiles_from i codes) = length codes.
Proof. induction codes as [|c rest IH]; simpl; intros i; auto. Qed.

Lemma tiles_from_nth (codes : list Z) :
  forall i k c,
    nth_error codes k = Some c ->
    nth_error (tiles_from i codes) k
    = Some (Tile_new (TILE_WIDTH * ((i + Z.of_nat k) mod 16))
                     (TILE_HEIGHT * ((i + Z.of_nat k) / 16)) c).
Proof.
  induction codes as [|c0 rest IH]; intros i k c H.
  - destruct k; discriminate H.
  - destruct k as [|k].
    + simpl in H. injection H as ->. simpl. rewrite Z.add_0_r. reflexivity.
    + simpl in H. cbn [tiles_from nth_error]. rewrite (IH (i + 1) k c H).
      replace (i + 1 + Z.of_nat k) with (i + Z.of_nat (S k)) by lia.
      reflexivity.
Qed.

(** C9, counterexample to the claim as stated. A sequence that
    is too long, and whose extra code is out of range, loads: the loop
    reads 192 codes and nothing looks at the rest. *)
Lemma long_sequence_loads :
  malformed long_codes = true /\
  length long_codes = 193%nat /\
  fst (setTiles (Contents long_codes)) = true /\
  length (snd (setTiles (Contents long_codes))) = 192%nat.
Proof. split; [|split; [|split]]; vm_compute; reflexivity. Qed.

(** C9, amended to what the source does. Loading fails exactly when the map file
    cannot be opened, or holds fewer than 192 codes, or one of its first
    192 codes is outside [[0, 12)]; codes after the first 192 are not
    read. On success 192 tiles are made, the tile of index [k] from the
    code of index [k], at [(80 * (k mod 16), 80 * (k / 16))], 80 wide
    and 80 high. *)
Theorem setTiles_fails_iff_prefix_malformed :
  fst (setTiles Unreadable) = false
  /\
  (forall codes,
      fst (setTiles (Contents codes)) = false <->
      (length codes < 192)%nat \/
      exists k c, (k < 192)%nat /\ nth_error codes k = Some c /\
                  ~ (0 <= c < 12))
  /\
  (forall codes,
      fst (setTiles (Contents codes)) = true ->
      length (snd (setTiles (Contents codes))) = 192%nat /\
      forall k c,
        (k < 192)%nat -> nth_error codes k = Some c ->
        nth_error (snd (setTiles (Contents codes))) k
        = Some (mkTile (mkRect (80 * (Z.of_nat k mod 16))
                               (80 * (Z.of_nat k / 16)) 80 80) c)).
Proof.
  assert (S : forall codes,
             fst (setTiles (Contents codes)) = well_formed_prefix codes /\
             (fst (setTiles (Contents codes)) = true ->
              snd (setTiles (Contents codes))
              = tiles_from 0 (firstn TOTAL_TILES codes))).
  { intros codes. unfold setTiles, well_formed_prefix.
    exact (setTiles_loop_spec TOTAL_TILES 0 codes ltac:(lia)
             ltac:(unfold TOTAL_TILES; lia)). }
  split; [reflexivity|]. split.
  - intros codes. destruct (S codes) as [E _]. rewrite E.
    unfold well_formed_prefix, TOTAL_TILES. split.
    + intros H. apply andb_false_iff in H. destruct H as [H|H].
      * left. apply Nat.leb_gt in H. exact H.
      * destruct (Nat.lt_ge_cases (length codes) 192) as [L|L];
          [left; exact L|right].
        assert (X : exists c, In c (firstn 192 codes) /\ valid_code c = false).
        { clear -H. induction (firstn 192 codes) as [|c l IH].
          - discriminate H.
          - simpl in H. apply andb_false_iff in H. destruct H as [H|H].
            + exists c. split; [left; reflexivity|exact H].
            + destruct (IH H) as [c' [I V]]. exists c'. split; [right|]; auto. }
        destruct X as [c [I V]].
        apply In_nth_error in I. destruct I as [k I].
        assert (K : (k < 192)%nat).
        { assert (Hk : (k < length (firstn 192 codes))%nat)
            by (apply nth_error_Some; congruence).
          rewrite length_firstn in Hk. lia. }
        exists k, c. split; [exact K|].
        rewrite nth_error_firstn in I.
        destruct (k <? 192)%nat eqn:T; [|discriminate I].
        split; [exact I|].
        unfold valid_code, TOTAL_TILE_SPRITES in V. lia.
    + intros [L|[k [c [K [N V]]]]].
      * apply andb_false_iff. left. apply Nat.leb_gt. exact L.
      * apply andb_false_iff. right.
        destruct (forallb valid_code (firstn 192 codes)) eqn:F; [|reflexivity].
        rewrite forallb_forall in F.
        assert (I : In c (firstn 192 codes)).
        { apply (nth_error_In _ k). rewrite nth_error_firstn.
          apply Nat.ltb_lt in K. rewrite K. exact N. }
        specialize (F c I). unfold valid_code, TOTAL_TILE_SPRITES in F. lia.
  - intros codes T. destruct (S codes) as [E R].
    rewrite (R T). rewrite E in T.
    unfold well_formed_prefix, TOTAL_TILES in *.
    apply andb_prop in T. destruct T as [L _]. apply Nat.leb_le in L.
    split.
    + rewrite tiles_from_length, length_firstn. lia.
    + intros k c K N.
      rewrite (tiles_from_nth _ 0 k c).
      * reflexivity.
      * rewrite nth_error_firstn. apply Nat.ltb_lt in K. rewrite K. exact N.
Qed.

Lemma setTiles_fails_iff_prefix_malformed_witness :
  fst (setTiles (Contents long_codes)) = true
  /\ nth_error (snd (setTiles (Contents long_codes))) 17
     = Some (mkTile (mkRect 80 80 80 80) 0).
Proof.
  assert (T : fst (setTiles (Contents long_codes)) = true)
    by (vm_compute; reflexivity).
  split; [exact T|].
  destruct (proj2 (proj2 setTiles_fails_iff_prefix_malformed) long_codes T)
    as [_ P].
  exact (P 17%nat 0 ltac:(lia) eq_refl).
Defined.

(* ================================================================== *)
(** ** The collision test on integer centres *)

Lemma closest_of_int (i lo hi : Z) :
  Z.abs i < 2 ^ 24 -> Z.abs lo < 2 ^ 24 -> Z.abs hi < 2 ^ 24 ->
  closest (F32.of_int i) lo hi = F32.of_int (clampZ i lo hi).
Proof.
  intros Hi Hlo Hhi. unfold closest, clampZ.
  rewrite !F32_ltb_of_int by assumption.
  destruct (i <? lo); [reflexivity|]. destruct (hi <? i); reflexivity.
Qed.

Lemma clampZ_bound (i lo hi : Z) :
  coordinate i -> coordinate lo -> coordinate hi ->
  coordinate (clampZ i lo hi).
Proof.
  unfold clampZ. intros. destruct (i <? lo); [assumption|].
  destruct (hi <? i); assumption.
Qed.

Lemma square_bound (d : Z) :
  - 20000 <= d <= 20000 -> 0 <= d * d <= 400000000.
Proof. intros H. nia. Qed.

(** For a circle whose centre has integer coordinates and a box in the
    range of the playfield, the value of [checkCollision] is the integer
    comparison: nothing is lost at the call of [distanceSquared], and no
    [int] operation wraps. *)
Lemma checkCollision_on_integers (i j : Z) (b : SDL_Rect) (r : float)
    (q : Z) :
  coordinate i -> coordinate j ->
  coordinate (rx b) -> coordinate (ry b) ->
  coordinate (rx b + rw b) -> coordinate (ry b + rh b) ->
  F64.of_float (F32.mul r r) = F64.of_int q -> Z.abs q < 2 ^ 53 ->
  checkCollision (mkCircle (F32.of_int i) (F32.of_int j) r) b
  = Some (distance2Z i j b <? q).
Proof.
  unfold coordinate. intros Hi Hj Hx Hy Hxw Hyh Hr Hq.
  assert (P : 2 ^ 24 = 16777216) by reflexivity.
  unfold checkCollision. cbn [cx cy cr].
  unfold Int.add at 1 2. rewrite !wrap32_small by lia.
  rewrite !closest_of_int by lia.
  pose proof (clampZ_bound i (rx b) (rx b + rw b) Hi Hx Hxw) as Cx.
  pose proof (clampZ_bound j (ry b) (ry b + rh b) Hj Hy Hyh) as Cy.
  unfold coordinate in Cx, Cy.
  rewrite !F32_to_int_of_int by lia. cbn [bind].
  rewrite Hr. unfold distanceSquared, distance2Z.
  set (px := clampZ i (rx b) (rx b + rw b)) in *.
  set (py := clampZ j (ry b) (ry b + rh b)) in *.
  unfold Int.sub. rewrite !wrap32_small by lia.
  pose proof (square_bound (px - i) ltac:(lia)) as Dx.
  pose proof (square_bound (py - j) ltac:(lia)) as Dy.
  unfold Int.mul. rewrite !wrap32_small by lia.
  unfold Int.add. rewrite wrap32_small by lia.
  rewrite F64_ltb_of_int.
  - f_equal. f_equal. lia.
  - assert (Q : 2 ^ 53 = 9007199254740992) by reflexivity. lia.
  - exact Hq.
Qed.



(** The range of the coordinates matters: [distanceSquared] multiplies
    in [int], and at a distance of 65536 the square wraps to zero. *)
Lemma checkCollision_far_box_wraps :
  let a := mkCircle (F32.of_int 0) (F32.of_int 0) (F32.of_int 10) in
  let b := mkRect 65536 0 80 80 in
  checkCollision a b = Some true
  /\ distance2Z 0 0 b = 65536 * 65536
  /\ Int.mul 65536 65536 = 0.
Proof. split; [|split]; vm_compute; reflexivity. Qed.

(* ================================================================== *)
(** ** The timer *)

Lemma u32_sub_range (a b : Z) : is_u32 (U32.sub a b).
Proof.
  unfold is_u32, U32.sub, U32.wrap, U32.modulus.
  apply Z.mod_pos_bound. reflexivity.
Qed.

(** X1. While a timer is paused, [getTicks] does not depend on the
    clock: it returns the ticks the timer had run when [pause] was
    called. *)
Theorem paused_timer_is_frozen :
  forall t p now,
    Timer.mStarted t = true -> Timer.mPaused t = false ->
    Timer.getTicks now (Timer.pause p t) = Timer.getTicks p t /\
    Timer.isPaused (Timer.pause p t) = true.
Proof.
  intros t p now S P. unfold Timer.pause, Timer.getTicks, Timer.isPaused.
  rewrite S, P. simpl. rewrite ?S. split; reflexivity.
Qed.

Lemma paused_timer_is_frozen_witness :
  let t := Timer.start 1000 Timer.new in
  (Timer.mStarted t = true /\ Timer.mPaused t = false)
  /\ Timer.getTicks 999999 (Timer.pause 1500 t) = 500.
Proof.
  intros t.
  assert (S : Timer.mStarted t = true) by reflexivity.
  assert (P : Timer.mPaused t = false) by reflexivity.
  split; [exact (conj S P)|].
  rewrite (proj1 (paused_timer_is_frozen t 1500 999999 S P)).
  reflexivity.
Defined.

(** X2. Pausing a running timer at [p] and resuming it at [u] leaves the
    paused interval out: a later reading is the ticks run before the
    pause plus the ticks since [unpause], in [Uint32] arithmetic. *)
Theorem unpause_resumes_from_paused_ticks :
  forall t p u now,
    Timer.mStarted t = true -> Timer.mPaused t = false ->
    Timer.getTicks now (Timer.unpause u (Timer.pause p t))
    = U32.wrap (Timer.getTicks p t + (now - u)) /\
    Timer.isPaused (Timer.unpause u (Timer.pause p t)) = false /\
    Timer.isStarted (Timer.unpause u (Timer.pause p t)) = true.
Proof.
  intros t p u now S P.
  unfold Timer.pause, Timer.unpause, Timer.getTicks, Timer.isPaused,
    Timer.isStarted.
  rewrite S, P. simpl. rewrite ?S. simpl. rewrite ?S.
  split; [|split; reflexivity].
  unfold U32.sub, U32.wrap.
  rewrite Zminus_mod_idemp_r. f_equal. lia.
Qed.

Lemma unpause_resumes_from_paused_ticks_witness :
  let t := Timer.start 1000 Timer.new in
  (Timer.mStarted t = true /\ Timer.mPaused t = false)
  /\ Timer.getTicks 9100 (Timer.unpause 9000 (Timer.pause 1500 t)) = 600.
Proof.
  intros t.
  assert (S : Timer.mStarted t = true) by reflexivity.
  assert (P : Timer.mPaused t = false) by reflexivity.
  split; [exact (conj S P)|].
  rewrite (proj1 (unpause_resumes_from_paused_ticks t 1500 9000 9100 S P)).
  reflexivity.
Defined.

(** X3. The reading of a running timer is the real time since [start]
    as long as that is below 2^32 ms, also when the tick counter of
    [SDL_GetTicks()] has wrapped in between. *)
Theorem elapsed_time_survives_counter_wrap :
  forall t T0 T1,
    0 <= T1 - T0 < U32.modulus ->
    Timer.getTicks (ticks_at T1) (Timer.start (ticks_at T0) t) = T1 - T0.
Proof.
  intros t T0 T1 H. unfold Timer.getTicks, Timer.start. simpl.
  unfold U32.sub, ticks_at, U32.wrap.
  rewrite Zminus_mod_idemp_l, Zminus_mod_idemp_r.
  apply Z.mod_small. exact H.
Qed.

Lemma elapsed_time_survives_counter_wrap_witness :
  0 <= (U32.modulus + 16) - (U32.modulus - 1) < U32.modulus
  /\ ticks_at (U32.modulus + 16) = 16
  /\ Timer.getTicks (ticks_at (U32.modulus + 16))
       (Timer.start (ticks_at (U32.modulus - 1)) Timer.new) = 17.
Proof.
  assert (H : 0 <= (U32.modulus + 16) - (U32.modulus - 1) < U32.modulus)
    by (unfold U32.modulus; lia).
  split; [exact H|]. split; [reflexivity|].
  rewrite (elapsed_time_survives_counter_wrap
             Timer.new (U32.modulus - 1) (U32.modulus + 16) H).
  reflexivity.
Defined.

Lemma call_keeps_invariant (c : TimerCall) (t : Timer.LTimer) :
  call_ok c ->
  (Timer.mPaused t = true -> Timer.mStarted t = true) /\
  is_u32 (Timer.mStartTicks t) /\ is_u32 (Timer.mPausedTicks t) ->
  (Timer.mPaused (call c t) = true -> Timer.mStarted (call c t) = true) /\
  is_u32 (Timer.mStartTicks (call c t)) /\
  is_u32 (Timer.mPausedTicks (call c t)).
Proof.
  assert (Z0 : is_u32 0) by (unfold is_u32, U32.modulus; lia).
  intros C [I [A B]].
  destruct c as [now| |now|now]; simpl in *.
  - split; [reflexivity|]. split; assumption.
  - split; [discriminate|]. split; assumption.
  - unfold Timer.pause.
    destruct (Timer.mStarted t) eqn:S, (Timer.mPaused t) eqn:P; simpl;
      rewrite ?S, ?P;
      (split; [|split]); auto using u32_sub_range.
  - unfold Timer.unpause.
    destruct (Timer.mStarted t) eqn:S, (Timer.mPaused t) eqn:P; simpl;
      rewrite ?S, ?P;
      (split; [|split]); auto using u32_sub_range; discriminate.
Qed.

(** X4. Whatever sequence of [start], [stop], [pause] and [unpause] a
    fresh timer has seen: it is paused only if it is started, so
    [isPaused] is the paused flag; a timer that is not started reads 0;
    and every reading is a [Uint32] value. *)
Theorem timer_invariant :
  forall cs now,
    Forall call_ok cs -> is_u32 now ->
    let t := calls cs Timer.new in
    (Timer.mPaused t = true -> Timer.mStarted t = true) /\
    Timer.isPaused t = Timer.mPaused t /\
    (Timer.isStarted t = false -> Timer.getTicks now t = 0) /\
    is_u32 (Timer.getTicks now t).
Proof.
  intros cs now C N.
  assert (Z0 : is_u32 0) by (unfold is_u32, U32.modulus; lia).
  assert (I : forall t0,
             (Timer.mPaused t0 = true -> Timer.mStarted t0 = true) /\
             is_u32 (Timer.mStartTicks t0) /\
             is_u32 (Timer.mPausedTicks t0) ->
             let t := calls cs t0 in
             (Timer.mPaused t = true -> Timer.mStarted t = true) /\
             is_u32 (Timer.mStartTicks t) /\
             is_u32 (Timer.mPausedTicks t)).
  { induction C as [|c cs Hc Hcs IH]; intros t0 H0; simpl.
    - exact H0.
    - apply IH. apply call_keeps_invariant; assumption. }
  specialize (I Timer.new (conj (fun H => H) (conj Z0 Z0))).
  cbv zeta in *. destruct I as [I [A B]].
  set (t := calls cs Timer.new) in *.
  split; [exact I|]. split; [|split].
  - unfold Timer.isPaused. destruct (Timer.mPaused t) eqn:P; [|reflexivity].
    rewrite (I eq_refl). reflexivity.
  - unfold Timer.isStarted, Timer.getTicks. intros ->. reflexivity.
  - unfold Timer.getTicks.
    destruct (Timer.mStarted t); [|exact Z0].
    destruct (Timer.mPaused t); [exact B|apply u32_sub_range].
Qed.

Lemma timer_invariant_witness :
  let cs := [CallStart 10; CallPause 25; CallStop; CallPause 40] in
  (Forall call_ok cs /\ is_u32 77)
  /\ Timer.isPaused (calls cs Timer.new) = false
  /\ Timer.getTicks 77 (calls cs Timer.new) = 0.
Proof.
  intros cs.
  assert (U : forall z, 0 <= z < 100 -> is_u32 z)
    by (intros z Hz; unfold is_u32, U32.modulus; lia).
  assert (C : Forall call_ok cs).
  { repeat constructor; simpl; try apply U; try lia. }
  assert (N : is_u32 77) by (apply U; lia).
  split; [exact (conj C N)|].
  destruct (timer_invariant cs 77 C N) as [_ [P [G _]]].
  split; [rewrite P; reflexivity|].
  apply G. reflexivity.
Defined.

(** X5. [pause] and [unpause] act once: a second [pause] changes
    nothing, [unpause] on a timer that is not paused changes nothing,
    and neither does anything to a timer that is not started. *)
Theorem pause_and_unpause_act_once :
  forall t n1 n2,
    Timer.pause n2 (Timer.pause n1 t) = Timer.pause n1 t /\
    Timer.unpause n2 (Timer.unpause n1 t) = Timer.unpause n1 t /\
    (Timer.mPaused t = false -> Timer.unpause n1 t = t) /\
    (Timer.mStarted t = false ->
     Timer.pause n1 t = t /\ Timer.unpause n1 t = t).
Proof.
  intros t n1 n2. unfold Timer.pause, Timer.unpause.
  destruct (Timer.mStarted t) eqn:S, (Timer.mPaused t) eqn:P; simpl;
    rewrite ?S, ?P; simpl; repeat split; reflexivity || discriminate.
Qed.

Lemma pause_and_unpause_act_once_witness :
  let t := Timer.start 10 Timer.new in
  Timer.mPaused t = false /\ Timer.unpause 99 t = t.
Proof.
  intros t.
  assert (P : Timer.mPaused t = false) by reflexivity.
  split; [exact P|].
  exact (proj1 (proj2 (proj2 (pause_and_unpause_act_once t 99 0))) P).
Defined.

(* ================================================================== *)
(** ** Geometry of the collision test *)

Lemma radius_ten_squared : squared_radius (F32.of_int 10) 100.
Proof. split; [vm_compute; reflexivity | reflexivity]. Qed.

Lemma checkCollision_exact (i j : Z) (b : SDL_Rect) (r : float) (q : Z) :
  coordinate i -> coordinate j -> box_in_range b -> squared_radius r q ->
  checkCollision (mkCircle (F32.of_int i) (F32.of_int j) r) b
  = Some (distance2Z i j b <? q).
Proof.
  intros Hi Hj [B1 [B2 [B3 B4]]] [R Q].
  apply checkCollision_on_integers; assumption.
Qed.

Lemma clampZ_inside (i lo hi : Z) : lo <= i <= hi -> clampZ i lo hi = i.
Proof.
  intros H. unfold clampZ.
  destruct (Z.ltb_spec i lo); [lia|]. destruct (Z.ltb_spec hi i); [lia|].
  reflexivity.
Qed.

Lemma clampZ_shift (i lo hi t : Z) :
  clampZ (i + t) (lo + t) (hi + t) = clampZ i lo hi + t.
Proof.
  unfold clampZ.
  destruct (Z.ltb_spec (i + t) (lo + t)), (Z.ltb_spec i lo); try lia.
  destruct (Z.ltb_spec (hi + t) (i + t)), (Z.ltb_spec hi i); lia.
Qed.

(** X24. For a circle whose centre has integer coordinates, which is
    what [shiftColliders] gives the dot's collider, and a box in the
    range of the playfield, the test always answers, and it answers yes
    exactly when the squared distance from the centre to the nearest
    point of the box is below the squared radius. *)
Theorem integer_centre_test_is_exact :
  forall i j b r q,
    coordinate i -> coordinate j -> box_in_range b -> squared_radius r q ->
    (checkCollision (mkCircle (F32.of_int i) (F32.of_int j) r) b = Some true
     <-> distance2Z i j b < q) /\
    (checkCollision (mkCircle (F32.of_int i) (F32.of_int j) r) b = Some false
     <-> q <= distance2Z i j b).
Proof.
  intros i j b r q Hi Hj Hb Hr.
  rewrite (checkCollision_exact i j b r q Hi Hj Hb Hr).
  destruct (Z.ltb_spec (distance2Z i j b) q) as [L|G]; split; split;
    intros H; try reflexivity; try discriminate H; lia.
Qed.

Lemma integer_centre_test_is_exact_witness :
  let b := origin_box in
  (coordinate 86 /\ coordinate 88 /\ box_in_range b /\
   squared_radius (F32.of_int 10) 100)
  /\ distance2Z 86 88 b = 100
  /\ checkCollision (mkCircle (F32.of_int 86) (F32.of_int 88) (F32.of_int 10))
                    b = Some false.
Proof.
  intros b.
  assert (Hi : coordinate 86) by (vm_compute; discriminate).
  assert (Hj : coordinate 88) by (vm_compute; discriminate).
  assert (Hb : box_in_range b)
    by (unfold box_in_range; split; [|split; [|split]]; vm_compute; discriminate).
  split; [exact (conj Hi (conj Hj (conj Hb radius_ten_squared)))|].
  split; [reflexivity|].
  apply (proj2 (integer_centre_test_is_exact 86 88 b (F32.of_int 10) 100
                  Hi Hj Hb radius_ten_squared)).
  vm_compute. discriminate.
Defined.

(** X6. A circle with a positive radius whose centre, with integer
    coordinates, lies in the box or on its edge collides with it. *)
Theorem centre_in_box_collides :
  forall i j b r q,
    coordinate i -> coordinate j -> box_in_range b -> squared_radius r q ->
    0 < q ->
    rx b <= i <= rx b + rw b -> ry b <= j <= ry b + rh b ->
    checkCollision (mkCircle (F32.of_int i) (F32.of_int j) r) b = Some true.
Proof.
  intros i j b r q Hi Hj Hb Hr Hq Ix Iy.
  rewrite (checkCollision_exact i j b r q Hi Hj Hb Hr).
  unfold distance2Z. rewrite !clampZ_inside by assumption.
  f_equal. apply Z.ltb_lt. lia.
Qed.

Lemma centre_in_box_collides_witness :
  (coordinate 80 /\ coordinate 0 /\ box_in_range origin_box /\
   squared_radius (F32.of_int 10) 100 /\ 0 < 100 /\
   rx origin_box <= 80 <= rx origin_box + rw origin_box /\
   ry origin_box <= 0 <= ry origin_box + rh origin_box)
  /\ checkCollision (mkCircle (F32.of_int 80) (F32.of_int 0) (F32.of_int 10))
                    origin_box = Some true.
Proof.
  assert (C : forall z, -100 <= z <= 100 -> coordinate z)
    by (intros z Hz; unfold coordinate; lia).
  assert (Hi : coordinate 80) by (apply C; lia).
  assert (Hj : coordinate 0) by (apply C; lia).
  assert (Hb : box_in_range origin_box)
    by (unfold box_in_range; split; [|split; [|split]]; vm_compute; discriminate).
  assert (Hq : 0 < 100) by lia.
  assert (Ix : rx origin_box <= 80 <= rx origin_box + rw origin_box)
    by (vm_compute; split; discriminate).
  assert (Iy : ry origin_box <= 0 <= ry origin_box + rh origin_box)
    by (vm_compute; split; discriminate).
  split; [exact (conj Hi (conj Hj (conj Hb (conj radius_ten_squared
                   (conj Hq (conj Ix Iy))))))|].
  exact (centre_in_box_collides 80 0 origin_box (F32.of_int 10) 100
           Hi Hj Hb radius_ten_squared Hq Ix Iy).
Defined.

(** X7. The test does not change when the circle, with integer centre,
    and the box are moved by the same whole number of pixels. *)
Theorem collision_is_translation_invariant :
  forall i j b r q t u,
    coordinate i -> coordinate j -> box_in_range b ->
    coordinate (i + t) -> coordinate (j + u) ->
    box_in_range (shift_box t u b) ->
    squared_radius r q ->
    checkCollision (mkCircle (F32.of_int (i + t)) (F32.of_int (j + u)) r)
                   (shift_box t u b)
    = checkCollision (mkCircle (F32.of_int i) (F32.of_int j) r) b.
Proof.
  intros i j b r q t u Hi Hj Hb Hi' Hj' Hb' Hr.
  rewrite (checkCollision_exact _ _ _ r q Hi' Hj' Hb' Hr).
  rewrite (checkCollision_exact _ _ _ r q Hi Hj Hb Hr).
  f_equal. f_equal. unfold distance2Z, shift_box. cbn [rx ry rw rh].
  replace (rx b + t + rw b) with (rx b + rw b + t) by lia.
  replace (ry b + u + rh b) with (ry b + rh b + u) by lia.
  rewrite !clampZ_shift. lia.
Qed.

Lemma collision_is_translation_invariant_witness :
  let b := origin_box in
  (coordinate 85 /\ coordinate 40 /\ box_in_range b /\
   coordinate (85 + 160) /\ coordinate (40 + 80) /\
   box_in_range (shift_box 160 80 b) /\
   squared_radius (F32.of_int 10) 100)
  /\ checkCollision (mkCircle (F32.of_int (85 + 160)) (F32.of_int (40 + 80))
                              (F32.of_int 10)) (shift_box 160 80 b)
     = Some true.
Proof.
  intros b.
  assert (C : forall z, -1000 <= z <= 1000 -> coordinate z)
    by (intros z Hz; unfold coordinate; lia).
  assert (Hi : coordinate 85) by (apply C; lia).
  assert (Hj : coordinate 40) by (apply C; lia).
  assert (Hb : box_in_range b)
    by (unfold box_in_range; split; [|split; [|split]]; vm_compute; discriminate).
  assert (Hi' : coordinate (85 + 160)) by (apply C; lia).
  assert (Hj' : coordinate (40 + 80)) by (apply C; lia).
  assert (Hb' : box_in_range (shift_box 160 80 b))
    by (unfold box_in_range; split; [|split; [|split]]; vm_compute; discriminate).
  split; [exact (conj Hi (conj Hj (conj Hb (conj Hi' (conj Hj'
                   (conj Hb' radius_ten_squared))))))|].
  rewrite (collision_is_translation_invariant 85 40 b (F32.of_int 10) 100
             160 80 Hi Hj Hb Hi' Hj' Hb' radius_ten_squared).
  vm_compute. reflexivity.
Defined.

(** X8. For a circle whose centre has integer coordinates within 10000
    of the origin, a box whose corners are within 10000 of the origin and
    whose width and height are not negative, and a radius whose square,
    as the test computes it, is an integer [q] that is at most [rho]
    squared for a non-negative integer [rho] (10 for the dot): when the
    centre is at least [rho] beyond one side of the box along one axis,
    [checkCollision] returns [false]. A circle of radius [rho] tangent to
    a side of the box is such a circle. *)
Theorem separated_circle_is_clear :
  forall i j b r q rho,
    coordinate i -> coordinate j -> box_in_range b -> squared_radius r q ->
    0 <= rho -> q <= rho * rho -> 0 <= rw b -> 0 <= rh b ->
    i + rho <= rx b \/ rx b + rw b + rho <= i \/
    j + rho <= ry b \/ ry b + rh b + rho <= j ->
    checkCollision (mkCircle (F32.of_int i) (F32.of_int j) r) b = Some false.
Proof.
  intros i j b r q rho Hi Hj Hb Hr Hrho Hq Hw Hh Sep.
  rewrite (checkCollision_exact i j b r q Hi Hj Hb Hr).
  f_equal. apply Z.ltb_ge. unfold distance2Z.
  set (dx := i - clampZ i (rx b) (rx b + rw b)).
  set (dy := j - clampZ j (ry b) (ry b + rh b)).
  assert (Sx : 0 <= dx * dx) by apply Z.square_nonneg.
  assert (Sy : 0 <= dy * dy) by apply Z.square_nonneg.
  assert (Dx : i + rho <= rx b \/ rx b + rw b + rho <= i ->
               rho * rho <= dx * dx).
  { intros D. unfold dx, clampZ.
    destruct (Z.ltb_spec i (rx b)); [nia|].
    destruct (Z.ltb_spec (rx b + rw b) i); nia. }
  assert (Dy : j + rho <= ry b \/ ry b + rh b + rho <= j ->
               rho * rho <= dy * dy).
  { intros D. unfold dy, clampZ.
    destruct (Z.ltb_spec j (ry b)); [nia|].
    destruct (Z.ltb_spec (ry b + rh b) j); nia. }
  destruct Sep as [S|[S|[S|S]]];
    [specialize (Dx (or_introl S)) | specialize (Dx (or_intror S))
    | specialize (Dy (or_introl S)) | specialize (Dy (or_intror S))]; lia.
Qed.

Lemma separated_circle_is_clear_witness :
  let b := origin_box in
  (coordinate 90 /\ coordinate 40 /\ box_in_range b /\
   squared_radius (F32.of_int 10) 100 /\ 0 <= 10 /\ 100 <= 10 * 10 /\
   0 <= rw b /\ 0 <= rh b /\
   (90 + 10 <= rx b \/ rx b + rw b + 10 <= 90 \/
    40 + 10 <= ry b \/ ry b + rh b + 10 <= 40))
  /\ checkCollision (mkCircle (F32.of_int 90) (F32.of_int 40) (F32.of_int 10))
                    b = Some false.
Proof.
  intros b.
  assert (C : forall z, -1000 <= z <= 1000 -> coordinate z)
    by (intros z Hz; unfold coordinate; lia).
  assert (Hi : coordinate 90) by (apply C; lia).
  assert (Hj : coordinate 40) by (apply C; lia).
  assert (Hb : box_in_range b)
    by (unfold box_in_range; split; [|split; [|split]]; vm_compute; discriminate).
  assert (H0 : 0 <= 10) by lia.
  assert (Hq : 100 <= 10 * 10) by lia.
  assert (Hw : 0 <= rw b) by (vm_compute; discriminate).
  assert (Hh : 0 <= rh b) by (vm_compute; discriminate).
  assert (Sep : 90 + 10 <= rx b \/ rx b + rw b + 10 <= 90 \/
                40 + 10 <= ry b \/ ry b + rh b + 10 <= 40)
    by (right; left; vm_compute; discriminate).
  split; [exact (conj Hi (conj Hj (conj Hb (conj radius_ten_squared
                   (conj H0 (conj Hq (conj Hw (conj Hh Sep))))))))|].
  exact (separated_circle_is_clear 90 40 b (F32.of_int 10) 100 10
           Hi Hj Hb radius_ten_squared H0 Hq Hw Hh Sep).
Defined.

(* ================================================================== *)
(** ** The loader, tile by tile *)

Lemma setTiles_loop_accepted (n : nat) :
  forall i stream,
    0 <= i -> i + Z.of_nat n <= 192 ->
    setTiles_loop n (fst (grid_position i)) (snd (grid_position i)) stream
    = ((length (accepted n stream) =? n)%nat,
       tiles_from i (accepted n stream)).
Proof.
  induction n as [|n IH]; intros i stream Hi Hn.
  - destruct stream; reflexivity.
  - cbn [setTiles_loop accepted].
    destruct stream as [|c rest]; [reflexivity|].
    cbn [extract].
    destruct (valid_code c) eqn:V.
    + rewrite (valid_code_in_range c V).
      unfold valid_code in V. rewrite V.
      pose proof (grid_advance i ltac:(lia)) as G. cbn zeta in G.
      specialize (IH (i + 1) rest ltac:(lia) ltac:(lia)).
      rewrite <- G in IH.
      destruct (SCREEN_WIDTH <=? Int.add (fst (grid_position i)) TILE_WIDTH);
        cbn [fst snd] in IH; rewrite IH; reflexivity.
    + destruct (Int.in_range c); [|reflexivity].
      unfold valid_code in V. rewrite V. reflexivity.
Qed.

Lemma accepted_length (n : nat) :
  forall codes, (length (accepted n codes) <= n)%nat.
Proof.
  induction n as [|n IH]; intros [|c rest]; simpl; try lia.
  destruct (valid_code c); simpl; [|lia].
  specialize (IH rest). lia.
Qed.

Lemma accepted_valid (n : nat) :
  forall codes, Forall (fun c => valid_code c = true) (accepted n codes).
Proof.
  induction n as [|n IH]; intros [|c rest]; simpl; try constructor.
  destruct (valid_code c) eqn:V; constructor; auto.
Qed.

Lemma accepted_prefix (n : nat) :
  forall codes,
    exists rest, firstn n codes = accepted n codes ++ rest /\
      (length (accepted n codes) < n ->
       match rest with
       | [] => (length codes < n)%nat
       | c :: _ => valid_code c = false
       end)%nat.
Proof.
  induction n as [|n IH]; intros codes.
  - exists []. split; [destruct codes; reflexivity|simpl; lia].
  - destruct codes as [|c rest0].
    + exists []. split; [reflexivity|simpl; lia].
    + cbn [accepted firstn]. destruct (valid_code c) eqn:V.
      * destruct (IH rest0) as [rest [E L]]. exists rest. split.
        -- simpl. rewrite E. reflexivity.
        -- simpl. intros H. specialize (L ltac:(lia)).
           destruct rest; [simpl in *; lia|exact L].
      * exists (c :: firstn n rest0). split; [reflexivity|]. intros _. exact V.
Qed.

Lemma setTiles_accepted (codes : list Z) :
  snd (setTiles (Contents codes)) = tiles_from 0 (accepted TOTAL_TILES codes)
  /\ fst (setTiles (Contents codes))
     = (length (accepted TOTAL_TILES codes) =? TOTAL_TILES)%nat.
Proof.
  unfold setTiles.
  pose proof (setTiles_loop_accepted TOTAL_TILES 0 codes ltac:(lia)
                ltac:(unfold TOTAL_TILES; lia)) as E.
  change (fst (grid_position 0)) with 0 in E.
  change (snd (grid_position 0)) with 0 in E.
  rewrite E. split; reflexivity.
Qed.

(** X9. When loading stops, whether it succeeds or fails, the tiles made
    are those of the valid codes at the front of the file, in order and
    at their grid positions; loading succeeds exactly when there are 192
    of them, and otherwise the first code not used is out of range or
    the file has ended. *)
Theorem load_keeps_tiles_before_first_bad_code :
  forall codes,
    snd (setTiles (Contents codes))
    = tiles_from 0 (accepted TOTAL_TILES codes) /\
    fst (setTiles (Contents codes))
    = (length (accepted TOTAL_TILES codes) =? TOTAL_TILES)%nat /\
    (length (snd (setTiles (Contents codes))) <= TOTAL_TILES)%nat /\
    exists rest,
      firstn TOTAL_TILES codes = accepted TOTAL_TILES codes ++ rest /\
      (fst (setTiles (Contents codes)) = false ->
       match rest with
       | [] => (length codes < TOTAL_TILES)%nat
       | c :: _ => valid_code c = false
       end).
Proof.
  intros codes. destruct (setTiles_accepted codes) as [E F].
  rewrite E, F.
  split; [reflexivity|]. split; [reflexivity|]. split.
  - rewrite tiles_from_length. apply accepted_length.
  - destruct (accepted_prefix TOTAL_TILES codes) as [rest [P L]].
    exists rest. split; [exact P|]. intros N. apply L.
    apply Nat.eqb_neq in N.
    pose proof (accepted_length TOTAL_TILES codes). lia.
Qed.

(** A file whose third code is out of range. *)
Example load_stops_at_bad_code :
  setTiles (Contents [3; 0; 12; 4; 5])
  = (false, [Tile_new 0 0 3; Tile_new 80 0 0]).
Proof. vm_compute. reflexivity. Qed.

Lemma tiles_from_on_screen (codes : list Z) :
  forall i,
    0 <= i -> i + Z.of_nat (length codes) <= 192 ->
    Forall (fun c => valid_code c = true) codes ->
    Forall (fun t => box_on_screen (getBox t) /\
                     rw (getBox t) = TILE_WIDTH /\
                     rh (getBox t) = TILE_HEIGHT /\
                     0 <= getType t < TOTAL_TILE_SPRITES)
           (tiles_from i codes).
Proof.
  induction codes as [|c rest IH]; intros i Hi Hn V; cbn [tiles_from].
  - constructor.
  - inversion V as [|c' l' Vc Vr]; subst.
    constructor.
    + cbn [length] in Hn.
      assert (Hm : 0 <= i mod 16 < 16) by (apply Z.mod_pos_bound; lia).
      assert (Hd : 0 <= i / 16 < 12)
        by (split; [apply Z.div_pos; lia | apply Z.div_lt_upper_bound; lia]).
      unfold box_on_screen, Tile_new, getBox, getType, grid_position.
      cbn [mBox mType rx ry rw rh fst snd].
      unfold TILE_WIDTH, TILE_HEIGHT, SCREEN_WIDTH, SCREEN_HEIGHT,
        TOTAL_TILE_SPRITES.
      unfold valid_code, TOTAL_TILE_SPRITES in Vc. lia.
    + apply IH; [lia | cbn [length] in Hn; lia | exact Vr].
Qed.

Lemma built_tiles_on_screen (map : MapFile) :
  Forall (fun t => box_on_screen (getBox t) /\
                   rw (getBox t) = TILE_WIDTH /\
                   rh (getBox t) = TILE_HEIGHT /\
                   0 <= getType t < TOTAL_TILE_SPRITES)
         (snd (setTiles map)).
Proof.
  destruct map as [|codes]; [constructor|].
  destruct (setTiles_accepted codes) as [E _].
  rewrite E. apply tiles_from_on_screen.
  - lia.
  - pose proof (accepted_length TOTAL_TILES codes).
    unfold TOTAL_TILES in *. lia.
  - apply accepted_valid.
Qed.

(** X10. Every tile the loader makes, in a load that succeeds or in one
    that fails, is an 80 by 80 box inside the 1280 by 960 playfield with
    a type in [[0, 12)]. *)
Theorem loaded_tiles_are_on_screen :
  forall map,
    Forall (fun t => box_on_screen (getBox t) /\
                     rw (getBox t) = TILE_WIDTH /\
                     rh (getBox t) = TILE_HEIGHT /\
                     0 <= getType t < TOTAL_TILE_SPRITES)
           (snd (setTiles map)).
Proof.
  intros [|codes]; [constructor|].
  destruct (setTiles_accepted codes) as [E _].
  rewrite E. apply tiles_from_on_screen.
  - lia.
  - pose proof (accepted_length TOTAL_TILES codes).
    unfold TOTAL_TILES in *. lia.
  - apply accepted_valid.
Qed.

Lemma load_keeps_tiles_before_first_bad_code_witness :
  fst (setTiles (Contents [3; 0; 12; 4; 5])) = false
  /\ accepted TOTAL_TILES [3; 0; 12; 4; 5] = [3; 0]
  /\ snd (setTiles (Contents [3; 0; 12; 4; 5]))
     = [Tile_new 0 0 3; Tile_new 80 0 0].
Proof.
  split; [reflexivity|]. split; [reflexivity|].
  rewrite (proj1 (load_keeps_tiles_before_first_bad_code [3; 0; 12; 4; 5])).
  reflexivity.
Defined.

(* ================================================================== *)
(** ** The wall query *)

Lemma skipn_nth (A : Type) (l : list A) :
  forall k, (k < length l)%nat ->
  exists a, nth_error l k = Some a /\ skipn k l = a :: skipn (S k) l.
Proof.
  induction l as [|a l IH]; intros k H; simpl in H; [lia|].
  destruct k as [|k].
  - exists a. split; reflexivity.
  - destruct (IH k ltac:(lia)) as [b [N S]]. exists b. split; [exact N|].
    exact S.
Qed.

Lemma touchesWall_from_no_wall (circle : Circle) (tiles : list Tile)
    (n : nat) :
  forall k,
    (k + n <= length tiles)%nat ->
    Forall (fun t => isWall t = false) (firstn n (skipn k tiles)) ->
    touchesWall_from circle tiles k n = Some false.
Proof.
  induction n as [|n IH]; intros k L F; [reflexivity|].
  destruct (skipn_nth _ tiles k ltac:(lia)) as [t [N S]].
  cbn [touchesWall_from]. rewrite N. cbn [bind].
  rewrite S in F. cbn [firstn] in F. inversion F as [|t' l' W R]; subst.
  rewrite W. apply IH; [lia|exact R].
Qed.

(** X11. On a map without wall tiles the wall query answers no for every
    circle, whatever its centre and radius: decorative tiles are not
    tested at all. *)
Theorem no_wall_tiles_no_contact :
  forall circle tiles,
    (TOTAL_TILES <= length tiles)%nat ->
    Forall (fun t => isWall t = false) (firstn TOTAL_TILES tiles) ->
    touchesWall circle tiles = Some false.
Proof.
  intros circle tiles L F. unfold touchesWall.
  apply touchesWall_from_no_wall; [simpl; exact L|exact F].
Qed.

Lemma no_wall_tiles_no_contact_witness :
  ((TOTAL_TILES <= length open_map)%nat /\
   Forall (fun t => isWall t = false) (firstn TOTAL_TILES open_map))
  /\ touchesWall (mkCircle S754_nan (S754_infinity false) (F32.of_int 10))
                 open_map = Some false.
Proof.
  assert (L : (TOTAL_TILES <= length open_map)%nat)
    by (vm_compute; repeat constructor).
  assert (F : Forall (fun t => isWall t = false)
                     (firstn TOTAL_TILES open_map)).
  { apply Forall_forall. intros t I.
    assert (E : forallb (fun t => negb (isWall t))
                        (firstn TOTAL_TILES open_map) = true)
      by (vm_compute; reflexivity).
    rewrite forallb_forall in E. specialize (E t I).
    destruct (isWall t); [discriminate|reflexivity]. }
  split; [exact (conj L F)|].
  exact (no_wall_tiles_no_contact _ open_map L F).
Defined.

Lemma touchesWall_from_integer (i j q : Z) (r : float) (tiles : list Tile)
    (n : nat) :
  coordinate i -> coordinate j -> squared_radius r q ->
  forall k,
    (k + n <= length tiles)%nat ->
    Forall (fun t => box_in_range (getBox t)) (firstn n (skipn k tiles)) ->
    touchesWall_from (mkCircle (F32.of_int i) (F32.of_int j) r) tiles k n
    = Some (existsb (hits i j q) (firstn n (skipn k tiles))).
Proof.
  intros Hi Hj Hr.
  induction n as [|n IH]; intros k L F; [reflexivity|].
  destruct (skipn_nth _ tiles k ltac:(lia)) as [t [N S]].
  cbn [touchesWall_from]. rewrite N. cbn [bind].
  rewrite S in F |- *. cbn [firstn existsb] in F |- *.
  inversion F as [|t' l' B R]; subst.
  unfold hits at 1. destruct (isWall t).
  - rewrite (checkCollision_exact i j (getBox t) r q Hi Hj B Hr). cbn [bind].
    destruct (distance2Z i j (getBox t) <? q); [reflexivity|].
    apply IH; [lia|exact R].
  - apply IH; [lia|exact R].
Qed.

Lemma on_screen_in_range (b : SDL_Rect) :
  box_on_screen b -> rw b = TILE_WIDTH -> rh b = TILE_HEIGHT ->
  box_in_range b.
Proof.
  unfold box_on_screen, box_in_range, coordinate, SCREEN_WIDTH,
    SCREEN_HEIGHT, TILE_WIDTH, TILE_HEIGHT.
  intros [A [B [C D]]] W H. lia.
Qed.

Lemma loaded_map_shape (map : MapFile) :
  fst (setTiles map) = true ->
  length (snd (setTiles map)) = TOTAL_TILES /\
  Forall (fun t => box_in_range (getBox t)) (snd (setTiles map)).
Proof.
  intros T. split.
  - destruct map as [|codes]; [discriminate T|].
    destruct (setTiles_accepted codes) as [E F].
    rewrite F in T. apply Nat.eqb_eq in T.
    rewrite E, tiles_from_length. exact T.
  - pose proof (built_tiles_on_screen map) as S.
    apply Forall_forall. intros t I.
    rewrite Forall_forall in S. destruct (S t I) as [A [B [C _]]].
    apply on_screen_in_range; assumption.
Qed.

Lemma touchesWall_on_loaded_map map i j r q :
  fst (setTiles map) = true ->
  coordinate i -> coordinate j -> squared_radius r q ->
  touchesWall (mkCircle (F32.of_int i) (F32.of_int j) r) (snd (setTiles map))
  = Some (existsb (hits i j q) (snd (setTiles map))).
Proof.
  intros T Hi Hj Hr.
  destruct (loaded_map_shape map T) as [L B].
  unfold touchesWall.
  rewrite (touchesWall_from_integer i j q r _ TOTAL_TILES Hi Hj Hr 0).
  - cbn [skipn]. rewrite <- L at 1. rewrite firstn_all. reflexivity.
  - rewrite L. apply Nat.le_refl.
  - cbn [skipn]. rewrite <- L. rewrite firstn_all. exact B.
Qed.

(** X12. On a loaded map, for a circle with integer centre in the range
    of the playfield, the wall query always answers, and it answers yes
    exactly when some wall tile of the map is closer to the centre than
    the radius: the order of the tiles has no influence. *)
Theorem wall_query_on_loaded_map :
  forall map i j r q,
    fst (setTiles map) = true ->
    coordinate i -> coordinate j -> squared_radius r q ->
    touchesWall (mkCircle (F32.of_int i) (F32.of_int j) r) (snd (setTiles map))
    = Some (existsb (hits i j q) (snd (setTiles map))) /\
    (touchesWall (mkCircle (F32.of_int i) (F32.of_int j) r)
                 (snd (setTiles map)) = Some true <->
     exists t, In t (snd (setTiles map)) /\ isWall t = true /\
               distance2Z i j (getBox t) < q).
Proof.
  intros map i j r q T Hi Hj Hr.
  pose proof (touchesWall_on_loaded_map map i j r q T Hi Hj Hr) as E.
  split; [exact E|]. rewrite E. split.
  - intros H. injection H as H. apply existsb_exists in H.
    destruct H as [t [I H]]. unfold hits in H.
    apply andb_prop in H. destruct H as [W D].
    exists t. split; [exact I|]. split; [exact W|]. apply Z.ltb_lt. exact D.
  - intros [t [I [W D]]]. f_equal. apply existsb_exists.
    exists t. split; [exact I|]. unfold hits. rewrite W.
    apply Z.ltb_lt. exact D.
Qed.

Lemma wall_query_on_loaded_map_witness :
  let map := Contents (TILE_CENTER :: repeat TILE_RED 191) in
  (fst (setTiles map) = true /\ coordinate 65 /\ coordinate 40 /\
   squared_radius (F32.of_int 10) 100)
  /\ touchesWall (mkCircle (F32.of_int 65) (F32.of_int 40) (F32.of_int 10))
                 (snd (setTiles map)) = Some true.
Proof.
  intros map.
  assert (T : fst (setTiles map) = true) by (vm_compute; reflexivity).
  assert (Hi : coordinate 65) by (vm_compute; discriminate).
  assert (Hj : coordinate 40) by (vm_compute; discriminate).
  split; [exact (conj T (conj Hi (conj Hj radius_ten_squared)))|].
  rewrite (proj1 (wall_query_on_loaded_map map 65 40 (F32.of_int 10) 100
                    T Hi Hj radius_ten_squared)).
  vm_compute. reflexivity.
Defined.

(* ================================================================== *)
(** ** The dot: construction, events and steps *)

Lemma exact_int_of_int (z : Z) :
  Z.abs z < 2 ^ 24 -> exact_int (F32.of_int z) = Some z.
Proof.
  intros H. pose proof (F32_fits z H) as F.
  unfold F32.of_int.
  rewrite (normalize_exact F32.prec F32.emax eq_refl eq_refl z F).
  destruct z as [|m|m]; [reflexivity| |].
  - pose proof (exact_int_norm false m 0 F ltac:(lia)) as E.
    rewrite Z.add_0_r in E. rewrite E. simpl. f_equal. lia.
  - pose proof (exact_int_norm true m 0 F ltac:(lia)) as E.
    rewrite Z.add_0_r in E. rewrite E. simpl. f_equal. lia.
Qed.

(** X13. For coordinates below 2^24 in magnitude the constructor
    completes: the dot is at exactly [(x, y)], at rest, with the
    collider centred on it and of radius 10. *)
Theorem constructor_places_dot :
  forall junk x y,
    Z.abs x < 2 ^ 24 -> Z.abs y < 2 ^ 24 ->
    exists d,
      Dot_new junk x y = Some d /\
      exact_int (mPosX d) = Some x /\ exact_int (mPosY d) = Some y /\
      mCollider d = mkCircle (mPosX d) (mPosY d) (F32.of_int 10) /\
      velocity_of d = (F32.of_int 0, F32.of_int 0) /\
      atRest d = true /\ collider_aligned d.
Proof.
  intros junk x y Hx Hy.
  assert (E : Dot_new junk x y
              = Some (mkDot (F32.of_int x) (F32.of_int y)
                            (F32.of_int 0) (F32.of_int 0)
                            (junk_x_down junk) (junk_y_down junk)
                            (junk_x_up junk) (junk_y_up junk)
                            (mkCircle (F32.of_int x) (F32.of_int y)
                                      (F32.of_int 10)))).
  { unfold Dot_new, shiftColliders. cbn [mPosX mPosY mCollider cr].
    rewrite (F32_to_int_of_int x Hx), (F32_to_int_of_int y Hy).
    reflexivity. }
  eexists. split; [exact E|]. cbn [mPosX mPosY mCollider].
  split; [exact (exact_int_of_int x Hx)|].
  split; [exact (exact_int_of_int y Hy)|].
  split; [reflexivity|]. split; [reflexivity|].
  split; [vm_compute; reflexivity|].
  exists x, y. cbn [mPosX mPosY mCollider cx cy].
  rewrite (F32_to_int_of_int x Hx), (F32_to_int_of_int y Hy). auto.
Qed.

Lemma constructor_places_dot_witness :
  (Z.abs 640 < 2 ^ 24 /\ Z.abs (-3) < 2 ^ 24)
  /\ exists d, Dot_new sample_junk 640 (-3) = Some d /\
               exact_int (mPosX d) = Some 640 /\
               exact_int (mPosY d) = Some (-3).
Proof.
  assert (Hx : Z.abs 640 < 2 ^ 24) by reflexivity.
  assert (Hy : Z.abs (-3) < 2 ^ 24) by reflexivity.
  split; [exact (conj Hx Hy)|].
  destruct (constructor_places_dot sample_junk 640 (-3) Hx Hy)
    as [d [E [X [Y _]]]].
  exists d. auto.
Defined.

Lemma queue_keeps_position (events : list SDL_Event) :
  forall d,
    let d' := fold_left (fun d e => handleEvent e d) events d in
    mPosX d' = mPosX d /\ mPosY d' = mPosY d /\ mCollider d' = mCollider d.
Proof.
  induction events as [|e rest IH]; intros d; cbn [fold_left].
  - auto.
  - destruct (IH (handleEvent e d)) as [A [B C]].
    destruct (handleEvent_position e d) as [A' [B' C']].
    cbv zeta in *. rewrite A, B, C. auto.
Qed.

(** X14. No queue of events moves the dot or its collider; a dot that
    moves ignores the whole queue; and a press never changes the
    velocity. *)
Theorem events_never_move_the_dot :
  forall events d,
    let d' := fold_left (fun d e => handleEvent e d) events d in
    mPosX d' = mPosX d /\ mPosY d' = mPosY d /\
    mCollider d' = mCollider d /\
    (atRest d = false -> d' = d) /\
    (forall x y,
        velocity_of (handleEvent (SDL_MOUSEBUTTONDOWN x y) d)
        = velocity_of d).
Proof.
  intros events d.
  destruct (queue_keeps_position events d) as [A [B C]]. cbv zeta in *.
  split; [exact A|]. split; [exact B|]. split; [exact C|]. split.
  - intros M. clear A B C.
    induction events as [|e rest IH]; cbn [fold_left]; [reflexivity|].
    rewrite (handleEvent_moving e d M). exact IH.
  - intros x y. unfold handleEvent. destruct (atRest d); reflexivity.
Qed.

Lemma events_never_move_the_dot_witness :
  let events := [SDL_MOUSEBUTTONDOWN 1 2; SDL_MOUSEBUTTONUP 300 4; SDL_OTHER] in
  atRest moving_dot = false
  /\ fold_left (fun d e => handleEvent e d) events moving_dot = moving_dot.
Proof.
  intros events.
  assert (M : atRest moving_dot = false) by (vm_compute; reflexivity).
  split; [exact M|].
  exact (proj1 (proj2 (proj2 (proj2
           (events_never_move_the_dot events moving_dot)))) M).
Defined.

Lemma move_stored_release tiles timeStep d d' :
  move tiles timeStep d = Some d' -> release_of d' = release_of d.
Proof.
  intros H. apply move_Some in H. destruct H as [d2 [H ->]].
  apply moveXY_Some in H. destruct H as [dx [Hx Hy]].
  destruct (moveX_frame _ _ _ _ _ Hx) as [_ [_ [_ [rx_ _]]]].
  destruct (moveY_frame _ _ _ _ _ Hy) as [_ [_ [_ [ry_ _]]]].
  destruct (settle_position d2) as [_ [_ [_ [_ rs]]]].
  rewrite rs, ry_, rx_. reflexivity.
Qed.

(** X15. A step never touches the stored press and release coordinates
    nor the radius of the collider, and it changes each component of the
    velocity only by damping it and possibly reversing it, unless it
    stops the dot. *)
Theorem step_changes_only_position_and_velocity :
  forall tiles timeStep d d',
    move tiles timeStep d = Some d' ->
    press_of d' = press_of d /\
    release_of d' = release_of d /\
    cr (mCollider d') = cr (mCollider d) /\
    (velocity_of d' = (F32.of_int 0, F32.of_int 0) \/
     (mVelX d' = damp (mVelX d) \/ mVelX d' = F32.opp (damp (mVelX d))) /\
     (mVelY d' = damp (mVelY d) \/ mVelY d' = F32.opp (damp (mVelY d)))).
Proof.
  intros tiles timeStep d d' H.
  split; [exact (move_stored_press _ _ _ _ H)|].
  split; [exact (move_stored_release _ _ _ _ H)|].
  split; [exact (move_radius _ _ _ _ H)|].
  apply move_Some in H. destruct H as [d2 [H ->]].
  apply moveXY_Some in H. destruct H as [dx [Hx Hy]].
  unfold settle. destruct (slow d2); [left; reflexivity|right].
  destruct (moveX_frame _ _ _ _ _ Hx) as [_ [wy _]].
  destruct (moveY_frame _ _ _ _ _ Hy) as [_ [wx _]].
  split.
  - rewrite wx. exact (moveX_velocity _ _ _ _ _ Hx).
  - rewrite <- wy. exact (moveY_velocity _ _ _ _ _ Hy).
Qed.

Lemma step_changes_only_position_and_velocity_witness :
  let d' := state_or slow_dot (move corner_wall_map (ratio 1 8) dot_by_wall) in
  move corner_wall_map (ratio 1 8) dot_by_wall = Some d'
  /\ press_of d' = press_of dot_by_wall
  /\ mVelX d' = F32.opp (damp (mVelX dot_by_wall)).
Proof.
  intros d'.
  assert (H : move corner_wall_map (ratio 1 8) dot_by_wall = Some d')
    by (vm_compute; reflexivity).
  split; [exact H|].
  destruct (step_changes_only_position_and_velocity
              corner_wall_map (ratio 1 8) dot_by_wall d' H) as [P _].
  split; [exact P|]. vm_compute. reflexivity.
Defined.

(** *** Steps that leave the dot where it is *)

Lemma leb_not_ltb (a p : float) : F32.leb a p = true -> F32.ltb p a = false.
Proof.
  unfold F32.leb, F32.ltb, SFleb, SFltb.
  rewrite (SFcompare_antisym a p).
  destruct (SFcompare a p) as [[ | | ]|]; simpl; congruence.
Qed.

Lemma between_bounds_finite (p : float) (t : bool) (mh : positive) (eh : Z) :
  F32.leb lowBound p = true -> F32.leb p (S754_finite t mh eh) = true ->
  exists m e, p = S754_finite false m e.
Proof.
  change lowBound with (S754_finite false 10485760 (-20)).
  unfold F32.leb, SFleb. intros L H.
  destruct p as [s|s| |s m e]; simpl in L, H; try discriminate L.
  - destruct s; [discriminate L | discriminate H].
  - destruct s; [discriminate L|]. eauto.
Qed.

(** A displacement that is a product with zero adds nothing, when the
    sum is a number at all. *)
Lemma add_zero_product (p a b : float) (m : positive) (e : Z) :
  p = S754_finite false m e ->
  (exists s, a = S754_zero s) \/ (exists s, b = S754_zero s) ->
  F32.is_nan (F32.add p (F32.mul a b)) = false ->
  F32.add p (F32.mul a b) = p.
Proof.
  intros -> [[s ->]|[s ->]];
    [destruct b as [t|t| |t mb eb] | destruct a as [t|t| |t ma ea]];
    simpl; try discriminate; reflexivity.
Qed.

Lemma moveX_still tiles timeStep d dx :
  F32.leb lowBound (mPosX d) = true -> F32.leb (mPosX d) highBoundX = true ->
  (exists s, mVelX d = S754_zero s) \/ (exists s, timeStep = S754_zero s) ->
  moveX tiles timeStep (mPosX d) d = Some dx ->
  mPosX dx = mPosX d.
Proof.
  intros L H Z M.
  destruct (between_bounds_finite _ false 10403840 (-13) L H) as [m [e P]].
  apply moveX_Some in M. destruct M as [d1 [d2 [H1 [H2 H3]]]].
  apply shiftColliders_body in H3. destruct H3 as [p3 _]. rewrite p3.
  apply shiftColliders_Some in H1. destruct H1 as [ix [iy [Tx [_ ->]]]].
  cbn [integrateX set_x mPosX] in Tx.
  apply to_int_not_nan in Tx.
  pose proof (add_zero_product _ _ _ m e P Z Tx) as E.
  apply resolveX_cases in H2.
  destruct H2 as [[B _]|[[_ [B _]]|[[_ ->]|[_ ->]]]].
  - exfalso. unfold belowLow in B. cbn [set_collider integrateX set_x mPosX] in B.
    rewrite E, (leb_not_ltb _ _ L) in B. discriminate.
  - exfalso. unfold aboveHigh in B.
    cbn [set_collider integrateX set_x mPosX] in B.
    rewrite E, (leb_not_ltb _ _ H) in B. discriminate.
  - reflexivity.
  - cbn [set_collider integrateX set_x mPosX]. exact E.
Qed.

Lemma moveY_still tiles timeStep d dy :
  F32.leb lowBound (mPosY d) = true -> F32.leb (mPosY d) highBoundY = true ->
  (exists s, mVelY d = S754_zero s) \/ (exists s, timeStep = S754_zero s) ->
  moveY tiles timeStep (mPosY d) d = Some dy ->
  mPosY dy = mPosY d.
Proof.
  intros L H Z M.
  destruct (between_bounds_finite _ false 15564800 (-14) L H) as [m [e P]].
  apply moveY_Some in M. destruct M as [d1 [d2 [H1 [H2 H3]]]].
  apply shiftColliders_body in H3. destruct H3 as [_ [p3 _]]. rewrite p3.
  apply shiftColliders_Some in H1. destruct H1 as [ix [iy [_ [Ty ->]]]].
  cbn [integrateY set_y mPosY] in Ty.
  apply to_int_not_nan in Ty.
  pose proof (add_zero_product _ _ _ m e P Z Ty) as E.
  apply resolveY_cases in H2.
  destruct H2 as [[B _]|[[_ [B _]]|[[_ ->]|[_ ->]]]].
  - exfalso. unfold belowLow in B. cbn [set_collider integrateY set_y mPosY] in B.
    rewrite E, (leb_not_ltb _ _ L) in B. discriminate.
  - exfalso. unfold aboveHigh in B.
    cbn [set_collider integrateY set_y mPosY] in B.
    rewrite E, (leb_not_ltb _ _ H) in B. discriminate.
  - reflexivity.
  - cbn [set_collider integrateY set_y mPosY]. exact E.
Qed.

Lemma in_playfield_parts (d : Dot) :
  in_playfield d = true ->
  F32.leb lowBound (mPosX d) = true /\ F32.leb (mPosX d) highBoundX = true /\
  F32.leb lowBound (mPosY d) = true /\ F32.leb (mPosY d) highBoundY = true.
Proof.
  unfold in_playfield. intros H.
  apply andb_prop in H. destruct H as [H D].
  apply andb_prop in H. destruct H as [H C].
  apply andb_prop in H. destruct H as [A B]. auto.
Qed.

Lemma move_still tiles timeStep d d' :
  in_playfield d = true ->
  ((exists s, mVelX d = S754_zero s) /\ (exists s, mVelY d = S754_zero s))
  \/ (exists s, timeStep = S754_zero s) ->
  move tiles timeStep d = Some d' ->
  mPosX d' = mPosX d /\ mPosY d' = mPosY d.
Proof.
  intros I Z H. destruct (in_playfield_parts d I) as [A [B [C D]]].
  apply move_Some in H. destruct H as [d2 [H ->]].
  destruct (settle_position d2) as [sx [sy _]]. rewrite sx, sy.
  apply moveXY_Some in H. destruct H as [dx [Hx Hy]].
  destruct (moveX_frame _ _ _ _ _ Hx) as [ky [kv _]].
  destruct (moveY_frame _ _ _ _ _ Hy) as [kx _].
  split.
  - rewrite kx. apply (moveX_still tiles timeStep d dx A B); [|exact Hx].
    destruct Z as [[Zx _]|Zt]; auto.
  - rewrite <- ky in Hy |- *. rewrite <- ky in C, D.
    apply (moveY_still tiles timeStep dx d2 C D); [|exact Hy].
    rewrite kv. destruct Z as [[_ Zy]|Zt]; auto.
Qed.






(** *** Steps that complete *)

Lemma bounds_convert :
  F32.to_int lowBound = Some 10 /\ F32.to_int highBoundX = Some 1270 /\
  F32.to_int highBoundY = Some 950.
Proof. split; [|split]; vm_compute; reflexivity. Qed.

Lemma small_coordinate (z : Z) : 0 <= z <= 1270 -> coordinate z.
Proof. unfold coordinate. lia. Qed.

Lemma moveX_completes map timeStep d fooX x0 y0 x1 :
  fst (setTiles map) = true ->
  cr (mCollider d) = F32.of_int 10 ->
  F32.to_int fooX = Some x0 -> coordinate x0 ->
  F32.to_int (mPosY d) = Some y0 -> coordinate y0 ->
  F32.to_int (F32.add (mPosX d) (F32.mul (mVelX d) timeStep)) = Some x1 ->
  coordinate x1 ->
  exists dx x2,
    moveX (snd (setTiles map)) timeStep fooX d = Some dx /\
    F32.to_int (mPosX dx) = Some x2 /\ coordinate x2.
Proof.
  intros T R X0 C0 Y0 D0 X1 C1.
  destruct bounds_convert as [BL [BX _]].
  assert (S1 : shiftColliders (integrateX timeStep d)
               = Some (set_collider
                         (mkCircle (F32.of_int x1) (F32.of_int y0)
                                   (F32.of_int 10))
                         (integrateX timeStep d))).
  { unfold shiftColliders. cbn [integrateX set_x mPosX mPosY mCollider].
    rewrite X1, Y0, R. reflexivity. }
  set (d1 := set_collider _ _) in S1.
  assert (W : exists b, touchesWall (mCollider d1) (snd (setTiles map))
                        = Some b).
  { eexists. exact (touchesWall_on_loaded_map map x1 y0
                      (F32.of_int 10) 100 T C1 D0 radius_ten_squared). }
  destruct W as [b W].
  assert (F : forall p v z, F32.to_int p = Some z ->
              shiftColliders (set_x p v d1)
              = Some (set_collider
                        (mkCircle (F32.of_int z) (F32.of_int y0)
                                  (F32.of_int 10)) (set_x p v d1))).
  { intros p v z Z. unfold shiftColliders.
    cbn [set_x mPosX mPosY mCollider d1 set_collider integrateX cr].
    rewrite Z, Y0. reflexivity. }
  unfold moveX. rewrite S1. cbn [bind]. unfold resolveX.
  destruct (F32.ltb (mPosX d1) lowBound).
  { cbn [bind]. rewrite (F _ _ 10 BL). eexists. exists 10.
    split; [reflexivity|]. split; [exact BL|]. apply small_coordinate. lia. }
  destruct (F32.ltb highBoundX (mPosX d1)).
  { cbn [bind]. rewrite (F _ _ 1270 BX). eexists. exists 1270.
    split; [reflexivity|]. split; [exact BX|]. apply small_coordinate. lia. }
  rewrite W. cbn [bind]. destruct b.
  - cbn [bind]. rewrite (F _ _ x0 X0). eexists. exists x0.
    split; [reflexivity|]. split; [exact X0|exact C0].
  - assert (P1 : F32.to_int (mPosX d1) = Some x1) by exact X1.
    assert (S2 : shiftColliders d1 = Some d1)
      by exact (shiftColliders_idem _ _ S1).
    cbn [bind]. rewrite S2. exists d1, x1.
    split; [reflexivity|]. split; assumption.
Qed.

Lemma moveY_completes map timeStep d fooY x0 y0 y1 :
  fst (setTiles map) = true ->
  cr (mCollider d) = F32.of_int 10 ->
  F32.to_int fooY = Some y0 -> coordinate y0 ->
  F32.to_int (mPosX d) = Some x0 -> coordinate x0 ->
  F32.to_int (F32.add (mPosY d) (F32.mul (mVelY d) timeStep)) = Some y1 ->
  coordinate y1 ->
  exists dy, moveY (snd (setTiles map)) timeStep fooY d = Some dy.
Proof.
  intros T R Y0 C0 X0 D0 Y1 C1.
  destruct bounds_convert as [BL [_ BY]].
  assert (S1 : shiftColliders (integrateY timeStep d)
               = Some (set_collider
                         (mkCircle (F32.of_int x0) (F32.of_int y1)
                                   (F32.of_int 10))
                         (integrateY timeStep d))).
  { unfold shiftColliders. cbn [integrateY set_y mPosX mPosY mCollider].
    rewrite X0, Y1, R. reflexivity. }
  set (d1 := set_collider _ _) in S1.
  assert (W : exists b, touchesWall (mCollider d1) (snd (setTiles map))
                        = Some b).
  { eexists. exact (touchesWall_on_loaded_map map x0 y1
                      (F32.of_int 10) 100 T D0 C1 radius_ten_squared). }
  destruct W as [b W].
  assert (F : forall p v z, F32.to_int p = Some z ->
              exists r, shiftColliders (set_y p v d1) = Some r).
  { intros p v z Z. unfold shiftColliders.
    cbn [set_y mPosX mPosY mCollider d1 set_collider integrateY cr].
    rewrite Z, X0. cbn [bind]. eauto. }
  unfold moveY. rewrite S1. cbn [bind]. unfold resolveY.
  destruct (F32.ltb (mPosY d1) lowBound).
  { cbn [bind]. exact (F _ _ 10 BL). }
  destruct (F32.ltb highBoundY (mPosY d1)).
  { cbn [bind]. exact (F _ _ 950 BY). }
  rewrite W. cbn [bind]. destruct b.
  - cbn [bind]. exact (F _ _ y0 Y0).
  - cbn [bind]. exists d1. exact (shiftColliders_idem _ _ S1).
Qed.

(** X18. On a loaded map a step always completes when the coordinates
    it converts to [int] are in range: the position at the start of the
    step and the two integrated coordinates, each within 10000 of the
    origin, for a collider of radius 10. *)
Theorem step_completes_on_loaded_map :
  forall map timeStep d x0 y0 x1 y1,
    fst (setTiles map) = true ->
    cr (mCollider d) = F32.of_int 10 ->
    F32.to_int (mPosX d) = Some x0 -> coordinate x0 ->
    F32.to_int (mPosY d) = Some y0 -> coordinate y0 ->
    F32.to_int (F32.add (mPosX d) (F32.mul (mVelX d) timeStep)) = Some x1 ->
    coordinate x1 ->
    F32.to_int (F32.add (mPosY d) (F32.mul (mVelY d) timeStep)) = Some y1 ->
    coordinate y1 ->
    exists d', move (snd (setTiles map)) timeStep d = Some d'.
Proof.
  intros map timeStep d x0 y0 x1 y1 T R X0 C0 Y0 D0 X1 C1 Y1 D1.
  destruct (moveX_completes map timeStep d (mPosX d) x0 y0 x1
              T R X0 C0 Y0 D0 X1 C1) as [dx [x2 [Mx [X2 C2]]]].
  destruct (moveX_frame _ _ _ _ _ Mx) as [py [vy [_ [_ rr]]]].
  assert (My : exists dy,
             moveY (snd (setTiles map)) timeStep (mPosY d) dx = Some dy).
  { apply (moveY_completes map timeStep dx (mPosY d) x2 y0 y1); auto.
    - congruence.
    - rewrite py, vy. exact Y1. }
  destruct My as [dy My].
  exists (settle dy). unfold move, moveXY. rewrite Mx. cbn [bind].
  rewrite My. reflexivity.
Qed.

Lemma step_completes_on_loaded_map_witness :
  let map := Contents (TILE_CENTER :: repeat TILE_RED 191) in
  (fst (setTiles map) = true /\
   cr (mCollider dot_by_wall) = F32.of_int 10 /\
   F32.to_int (mPosX dot_by_wall) = Some 90 /\ coordinate 90 /\
   F32.to_int (mPosY dot_by_wall) = Some 40 /\ coordinate 40 /\
   F32.to_int (F32.add (mPosX dot_by_wall)
                 (F32.mul (mVelX dot_by_wall) (ratio 1 8))) = Some 65 /\
   coordinate 65 /\
   F32.to_int (F32.add (mPosY dot_by_wall)
                 (F32.mul (mVelY dot_by_wall) (ratio 1 8))) = Some 40 /\
   coordinate 40)
  /\ exists d', move (snd (setTiles map)) (ratio 1 8) dot_by_wall = Some d'.
Proof.
  intros map.
  assert (T : fst (setTiles map) = true) by (vm_compute; reflexivity).
  assert (R : cr (mCollider dot_by_wall) = F32.of_int 10) by reflexivity.
  assert (X0 : F32.to_int (mPosX dot_by_wall) = Some 90)
    by (vm_compute; reflexivity).
  assert (C0 : coordinate 90) by (vm_compute; discriminate).
  assert (Y0 : F32.to_int (mPosY dot_by_wall) = Some 40)
    by (vm_compute; reflexivity).
  assert (D0 : coordinate 40) by (vm_compute; discriminate).
  assert (X1 : F32.to_int (F32.add (mPosX dot_by_wall)
                 (F32.mul (mVelX dot_by_wall) (ratio 1 8))) = Some 65)
    by (vm_compute; reflexivity).
  assert (C1 : coordinate 65) by (vm_compute; discriminate).
  assert (Y1 : F32.to_int (F32.add (mPosY dot_by_wall)
                 (F32.mul (mVelY dot_by_wall) (ratio 1 8))) = Some 40)
    by (vm_compute; reflexivity).
  split; [exact (conj T (conj R (conj X0 (conj C0 (conj Y0 (conj D0
                   (conj X1 (conj C1 (conj Y1 D0)))))))))|].
  exact (step_completes_on_loaded_map map (ratio 1 8) dot_by_wall
           90 40 65 40 T R X0 C0 Y0 D0 X1 C1 Y1 D0).
Defined.

(* ================================================================== *)
(** ** The main loop *)

(** X19. The first pass of the main loop never moves the dot: the timer
    has not been started, so the time step is 0 whatever the clock
    reads, and the dot of [main] stays at (10, 10) whatever events were
    queued, on every map; the pass leaves the timer running from its
    second clock reading. *)
Theorem first_frame_keeps_dot_in_place :
  forall tiles events now1 now2 junk d0 g,
    Dot_new junk (Z.quot DOT_WIDTH 2) (Z.quot DOT_HEIGHT 2) = Some d0 ->
    frame tiles events now1 now2 (game_of d0) = Some g ->
    timeStep_of (Timer.getTicks now1 Timer.new) = S754_zero false /\
    mPosX (dot g) = F32.of_int 10 /\ mPosY (dot g) = F32.of_int 10 /\
    Timer.isStarted (stepTimer g) = true /\
    Timer.isPaused (stepTimer g) = false /\
    Timer.mStartTicks (stepTimer g) = now2.
Proof.
  intros tiles events now1 now2 junk d0 g N F.
  assert (Z : timeStep_of (Timer.getTicks now1 Timer.new) = S754_zero false)
    by (vm_compute; reflexivity).
  split; [exact Z|].
  unfold frame in F. cbn [game_of dot stepTimer] in F. rewrite Z in F.
  apply bind_Some in F. destruct F as [d' [M F]]. injection F as <-.
  cbn [dot stepTimer].
  destruct (queue_keeps_position events d0) as [A [B _]]. cbv zeta in A, B.
  apply Dot_new_fields in N. destruct N as [_ [_ [_ [_ [Px [Py _]]]]]].
  change (Z.quot DOT_WIDTH 2) with 10 in Px.
  change (Z.quot DOT_HEIGHT 2) with 10 in Py.
  set (d1 := fold_left (fun d e => handleEvent e d) events d0) in *.
  assert (I : in_playfield d1 = true).
  { unfold in_playfield. rewrite A, B, Px, Py. vm_compute. reflexivity. }
  destruct (move_still tiles (S754_zero false) d1 d' I
              (or_intror (ex_intro _ false eq_refl)) M) as [X Y].
  rewrite X, Y, A, B, Px, Py.
  repeat (split; [reflexivity|]). reflexivity.
Qed.

Lemma first_frame_keeps_dot_in_place_witness :
  let d0 := state_or slow_dot main_dot in
  let events := [SDL_MOUSEBUTTONDOWN 300 200; SDL_MOUSEBUTTONUP 100 100] in
  let g' := match frame open_map events 5000 5001 (game_of d0) with
            | Some g => g
            | None => game_of d0
            end in
  (Dot_new sample_junk (Z.quot DOT_WIDTH 2) (Z.quot DOT_HEIGHT 2) = Some d0 /\
   frame open_map events 5000 5001 (game_of d0) = Some g')
  /\ mPosX (dot g') = F32.of_int 10
  /\ exact_int (mVelX (dot g')) = Some 396.
Proof.
  intros d0 events g'.
  assert (N : Dot_new sample_junk (Z.quot DOT_WIDTH 2) (Z.quot DOT_HEIGHT 2)
              = Some d0) by (vm_compute; reflexivity).
  assert (F : frame open_map events 5000 5001 (game_of d0) = Some g')
    by (vm_compute; reflexivity).
  split; [exact (conj N F)|]. split.
  - exact (proj1 (proj2 (first_frame_keeps_dot_in_place open_map events
                           5000 5001 sample_junk d0 g' N F))).
  - vm_compute. reflexivity.
Defined.

(* ================================================================== *)
(** ** Loading and cleaning up *)

Lemma nth_error_after_nulls (k : nat) (s : Slot) (rest : list Slot) :
  nth_error (repeat Null k ++ s :: rest) k = Some s.
Proof. induction k as [|k IH]; simpl; auto. Qed.

Lemma set_slot_after_nulls (k : nat) (s v : Slot) (rest : list Slot) :
  set_slot k v (repeat Null k ++ s :: rest) = repeat Null k ++ v :: rest.
Proof. induction k as [|k IH]; simpl; [reflexivity|]. rewrite IH. reflexivity. Qed.

Lemma nulls_snoc (k : nat) (rest : list Slot) :
  repeat Null k ++ Null :: rest = repeat Null (S k) ++ rest.
Proof. induction k as [|k IH]; simpl; [reflexivity|]. rewrite IH. reflexivity. Qed.

Lemma close_from_lives (l : list Tile) :
  forall k m rest,
    close_from (repeat Null k ++ map Live l ++ rest) k (length l + m)
    = match close_from (repeat Null (k + length l) ++ rest)
                       (k + length l) m with
      | Some r => Some (fst r, l ++ snd r)
      | None => None
      end.
Proof.
  induction l as [|t l IH]; intros k m rest.
  - cbn [map length app Nat.add]. rewrite Nat.add_0_r.
    destruct (close_from _ _ m) as [[ts del]|]; reflexivity.
  - cbn [map length app Nat.add close_from].
    rewrite nth_error_after_nulls. cbn [bind].
    rewrite set_slot_after_nulls, nulls_snoc, (IH (S k) m rest).
    replace (S k + length l)%nat with (k + S (length l))%nat by lia.
    destruct (close_from _ _ m) as [[ts del]|]; reflexivity.
Qed.

Lemma close_full (built : list Tile) :
  length built = TOTAL_TILES ->
  close (tileSet_after built) = Some (repeat Null TOTAL_TILES, built).
Proof.
  intros L. unfold close, tileSet_after. rewrite L, Nat.sub_diag.
  pose proof (close_from_lives built 0 0 []) as E.
  cbn [repeat app] in E |- *. rewrite Nat.add_0_r, L in E.
  rewrite E. cbn [close_from fst snd Nat.add].
  rewrite !app_nil_r. reflexivity.
Qed.

Lemma close_partial (built : list Tile) :
  (length built < TOTAL_TILES)%nat ->
  close (tileSet_after built) = None.
Proof.
  intros L. unfold close, tileSet_after.
  remember (TOTAL_TILES - length built)%nat as u eqn:U.
  destruct u as [|u]; [lia|].
  replace TOTAL_TILES with (length built + S u)%nat at 1 by lia.
  pose proof (close_from_lives built 0 (S u) (repeat Uninit (S u))) as E.
  cbn [repeat app] in E. cbn [repeat]. rewrite E.
  cbn [Nat.add close_from repeat].
  rewrite nth_error_after_nulls. reflexivity.
Qed.

Lemma load_flag_and_count (map : MapFile) :
  (fst (setTiles map) = true -> length (snd (setTiles map)) = TOTAL_TILES) /\
  (fst (setTiles map) = false ->
   (length (snd (setTiles map)) < TOTAL_TILES)%nat).
Proof.
  destruct map as [|codes].
  - split; [discriminate|]. intros _. simpl. unfold TOTAL_TILES. lia.
  - unfold setTiles.
    pose proof (setTiles_loop_accepted TOTAL_TILES 0 codes ltac:(lia)
                  ltac:(unfold TOTAL_TILES; lia)) as E.
    change (fst (grid_position 0)) with 0 in E.
    change (snd (grid_position 0)) with 0 in E.
    rewrite E. cbn [fst snd]. rewrite tiles_from_length.
    pose proof (accepted_length TOTAL_TILES codes) as A.
    split; intros H.
    + apply Nat.eqb_eq in H. exact H.
    + apply Nat.eqb_neq in H. lia.
Qed.

(** X20. [loadMedia] reports success exactly when both textures and the
    map loaded, and it loads the map whatever happened to the textures.
    When the map loaded, [close] deletes each of the 192 tiles once, in
    order, and leaves every slot null. When the map did not load, the
    slots the loader did not reach were never assigned, and [close],
    which [main] calls all the same, reads one of them. *)
Theorem cleanup_after_load :
  forall dotTexture tileTexture map,
    fst (loadMedia dotTexture tileTexture map)
    = dotTexture && tileTexture && fst (setTiles map) /\
    (fst (setTiles map) = true ->
     close (snd (loadMedia dotTexture tileTexture map))
     = Some (repeat Null TOTAL_TILES, snd (setTiles map))) /\
    (fst (setTiles map) = false ->
     close (snd (loadMedia dotTexture tileTexture map)) = None).
Proof.
  intros dotTexture tileTexture map.
  destruct (load_flag_and_count map) as [A B].
  unfold loadMedia. cbn [fst snd]. split; [|split].
  - destruct dotTexture, tileTexture, (fst (setTiles map)); reflexivity.
  - intros T. apply close_full. exact (A T).
  - intros F. apply close_partial. exact (B F).
Qed.

Lemma cleanup_after_load_witness :
  fst (setTiles (Contents [3; 0; 12; 4; 5])) = false
  /\ snd (loadMedia true true (Contents [3; 0; 12; 4; 5]))
     = Live (Tile_new 0 0 3) :: Live (Tile_new 80 0 0) :: repeat Uninit 190
  /\ close (snd (loadMedia true true (Contents [3; 0; 12; 4; 5]))) = None.
Proof.
  assert (F : fst (setTiles (Contents [3; 0; 12; 4; 5])) = false)
    by reflexivity.
  split; [exact F|]. split; [vm_compute; reflexivity|].
  exact (proj2 (proj2 (cleanup_after_load true true
                         (Contents [3; 0; 12; 4; 5]))) F).
Defined.

(* ================================================================== *)
(** ** The vector class *)

Lemma SFadd_comm (a b : float) : F32.add a b = F32.add b a.
Proof.
  unfold F32.add, SFadd.
  destruct a as [sa|sa| |sa ma ea], b as [sb|sb| |sb mb eb];
    try reflexivity; try (destruct sa, sb; reflexivity).
  rewrite (Z.min_comm eb ea), Z.add_comm. reflexivity.
Qed.

(** X21. Vector addition is commutative, for all components including
    infinities and NaN. *)
Theorem vector_addition_commutes :
  forall a b, Vec.add a b = Vec.add b a.
Proof.
  intros a b. unfold Vec.add.
  rewrite (SFadd_comm (Vec.x a) (Vec.x b)), (SFadd_comm (Vec.y a) (Vec.y b)).
  reflexivity.
Qed.

Lemma SFsub_self (a : float) :
  (exists s, a = S754_zero s) \/ (exists s m e, a = S754_finite s m e) ->
  SFsub F32.prec F32.emax a a = S754_zero false.
Proof.
  intros [[s ->]|[s [m [e ->]]]].
  - destruct s; reflexivity.
  - unfold SFsub. rewrite Z.sub_diag. reflexivity.
Qed.

(** X22. A vector with finite components minus itself is the zero
    vector (+0, +0). *)
Theorem vector_minus_itself_is_zero :
  forall a, finite_vector a ->
  Vec.sub a a = Vec.mk (S754_zero false) (S754_zero false).
Proof.
  intros a [X Y]. unfold Vec.sub.
  rewrite (SFsub_self _ X), (SFsub_self _ Y). reflexivity.
Qed.

Lemma vector_minus_itself_is_zero_witness :
  let a := Vec.mk (ratio 3 2) (S754_zero true) in
  finite_vector a /\ Vec.sub a a = Vec.mk (S754_zero false) (S754_zero false).
Proof.
  intros a.
  assert (F : finite_vector a).
  { split; [right|left].
    - do 3 eexists. vm_compute. reflexivity.
    - eexists. reflexivity. }
  split; [exact F|]. exact (vector_minus_itself_is_zero a F).
Defined.

(** X23. [normalize] does not divide by a magnitude that is zero or not
    a number: the zero vector, with either sign of zero, and every
    vector with a NaN component are returned unchanged. *)
Theorem normalize_guards_its_division :
  forall a,
    ((exists s t, a = Vec.mk (S754_zero s) (S754_zero t)) \/
     Vec.x a = S754_nan \/ Vec.y a = S754_nan) ->
    Vec.normalize a = a.
Proof.
  intros [ax ay] [[s [t E]]|[E|E]].
  - injection E as -> ->. destruct s, t; vm_compute; reflexivity.
  - cbn [Vec.x] in E. subst ax. unfold Vec.normalize. cbn [Vec.x Vec.y].
    reflexivity.
  - cbn [Vec.y] in E. subst ay. unfold Vec.normalize. cbn [Vec.x Vec.y].
    replace (F32.add (F32.mul ax ax) (F32.mul S754_nan S754_nan))
      with S754_nan; [reflexivity|].
    unfold F32.add, F32.mul. cbn [SFmul].
    destruct (SFmul F32.prec F32.emax ax ax); reflexivity.
Qed.

Lemma normalize_guards_its_division_witness :
  let a := Vec.mk (S754_zero true) (S754_zero false) in
  (exists s t, a = Vec.mk (S754_zero s) (S754_zero t))
  /\ Vec.normalize a = a.
Proof.
  intros a.
  assert (Z : exists s t, a = Vec.mk (S754_zero s) (S754_zero t))
    by (exists true, false; reflexivity).
  split; [exact Z|].
  exact (normalize_guards_its_division a (or_introl Z)).
Defined.

(* ================================================================== *)
(** ** Further facts on events, steps and distances *)

(** X25. A click without a drag, a press and a release at the same
    point handled at rest, leaves the dot at rest and in place. *)
Theorem click_without_drag_keeps_rest :
  forall d x y,
    atRest d = true ->
    let d' := handleEvent (SDL_MOUSEBUTTONUP x y)
                (handleEvent (SDL_MOUSEBUTTONDOWN x y) d) in
    atRest d' = true /\ mPosX d' = mPosX d /\ mPosY d' = mPosY d /\
    press_of d' = (x, y) /\ release_of d' = (x, y).
Proof.
  intros d x y R. cbv zeta.
  destruct (atRest_zero d R) as [sx [sy [Vx Vy]]].
  set (d1 := handleEvent (SDL_MOUSEBUTTONDOWN x y) d).
  destruct (handleEvent_press d x y R) as [P [V R1]]. fold d1 in P, V, R1.
  destruct (handleEvent_release d1 x y R1) as [Vel [Rel Pr]].
  destruct (handleEvent_position (SDL_MOUSEBUTTONDOWN x y) d) as [A [B _]].
  fold d1 in A, B.
  destruct (handleEvent_position (SDL_MOUSEBUTTONUP x y) d1) as [A' [B' _]].
  unfold velocity_of in V, Vel. injection V as V1 V2.
  injection Vel as W1 W2. unfold press_of in P. injection P as P1 P2.
  unfold impulse in W1, W2. cbn [fst snd] in W1, W2.
  rewrite P1, V1, Vx in W1. rewrite P2, V2, Vy in W2.
  unfold Int.sub in W1, W2. rewrite Z.sub_diag in W1, W2.
  split.
  - apply (zero_atRest _ false false).
    + rewrite W1. destruct sx; vm_compute; reflexivity.
    + rewrite W2. destruct sy; vm_compute; reflexivity.
  - split; [congruence|]. split; [congruence|].
    split; [|exact Rel]. rewrite Pr. unfold press_of. congruence.
Qed.

Lemma click_without_drag_keeps_rest_witness :
  let d := state_or slow_dot main_dot in
  atRest d = true
  /\ atRest (handleEvent (SDL_MOUSEBUTTONUP 33 44)
               (handleEvent (SDL_MOUSEBUTTONDOWN 33 44) d)) = true.
Proof.
  intros d.
  assert (R : atRest d = true) by (vm_compute; reflexivity).
  split; [exact R|].
  exact (proj1 (click_without_drag_keeps_rest d 33 44 R)).
Defined.

(** X26. After every step the dot is either at rest, with velocity
    (+0, +0), or it still has a velocity component of magnitude 20 or
    more (or one that is not a number): a step never leaves a slow,
    moving dot. *)
Theorem after_step_at_rest_or_fast :
  forall tiles timeStep d d',
    move tiles timeStep d = Some d' ->
    (velocity_of d' = (F32.of_int 0, F32.of_int 0) /\ atRest d' = true) \/
    F32.ltb (F32.abs (mVelX d')) (F32.of_int 20) = false \/
    F32.ltb (F32.abs (mVelY d')) (F32.of_int 20) = false.
Proof.
  intros tiles timeStep d d' H.
  apply move_Some in H. destruct H as [d2 [_ ->]].
  unfold settle. destruct (slow d2) eqn:S.
  - left. split; reflexivity.
  - right. rewrite slow_abs in S. apply andb_false_iff in S. exact S.
Qed.

Lemma after_step_at_rest_or_fast_witness :
  let d' := state_or slow_dot (move open_map (ratio 1 4) slow_dot) in
  move open_map (ratio 1 4) slow_dot = Some d'
  /\ atRest d' = true.
Proof.
  intros d'.
  assert (H : move open_map (ratio 1 4) slow_dot = Some d')
    by (vm_compute; reflexivity).
  split; [exact H|].
  destruct (after_step_at_rest_or_fast open_map (ratio 1 4) slow_dot d' H)
    as [[_ R]|[F|F]].
  - exact R.
  - vm_compute in F. discriminate F.
  - vm_compute in F. discriminate F.
Defined.

Lemma wrap32_mod (z : Z) : Int.wrap32 z mod 2 ^ 32 = z mod 2 ^ 32.
Proof.
  unfold Int.wrap32.
  rewrite Zminus_mod, Z.mod_mod by discriminate.
  rewrite <- Zminus_mod. f_equal. lia.
Qed.

Lemma wrap32_congr (a b : Z) :
  a mod 2 ^ 32 = b mod 2 ^ 32 -> Int.wrap32 a = Int.wrap32 b.
Proof.
  intros H. unfold Int.wrap32. f_equal.
  rewrite (Zplus_mod a), (Zplus_mod b), H. reflexivity.
Qed.

Lemma square_of_difference (a b : Z) :
  Int.mul (Int.sub a b) (Int.sub a b) = Int.mul (Int.sub b a) (Int.sub b a).
Proof.
  unfold Int.mul, Int.sub. apply wrap32_congr.
  rewrite (Zmult_mod (Int.wrap32 (a - b))), (Zmult_mod (Int.wrap32 (b - a))).
  rewrite !wrap32_mod.
  rewrite <- !Zmult_mod. f_equal. lia.
Qed.

(** X27. The squared distance is the same in both directions, for all
    [int] arguments, also where the [int] arithmetic wraps. *)
Theorem distanceSquared_is_symmetric :
  forall x1 y1 x2 y2,
    distanceSquared x1 y1 x2 y2 = distanceSquared x2 y2 x1 y1.
Proof.
  intros x1 y1 x2 y2. unfold distanceSquared. cbv zeta.
  rewrite (square_of_difference x2 x1), (square_of_difference y2 y1).
  reflexivity.
Qed.
